(** * Golf Shot DB: the data-sync core of [app.py]

    A shallow embedding of the Flask handlers [save_shot], [save_hole],
    [save_round], [export_unsynced] and [mark_synced] together with the
    schema declared by [init_db].  A database state is the content of the
    three tables plus the two SERIAL sequences; a handler is a function from
    a state and a request to a state and a response.

    Two things the handlers use are not part of the repository: the Python
    objects that [request.json] produces, and the way psycopg2 and PostgreSQL
    turn a Python object into a value of a column type.  The first is the
    inductive type [Py.pyval]; the second is the record [pg_input], a
    parameter of every handler.  What is fixed by the schema itself (NULL
    for [None], NOT NULL, PRIMARY KEY, FOREIGN KEY, DEFAULT, SERIAL) is
    written out in module [Sql].  On the way back, from a stored row to the
    Python objects of [fetchall], only a timestamp can fail: a [datetime]
    has no year before 1. *)

From stdpp Require Import gmap strings list sorting.

#[local] Set Warnings "-register-all".

(** ** Python values *)

Module Py.

(** What [json.loads] builds, and [datetime] for [datetime.now()].  A float
    carries its IEEE-754 binary64 bit pattern: the server stores and returns
    floats, it never computes with them. *)
Inductive pyval :=
| PyNone
| PyBool (b : bool)
| PyInt (z : Z)
| PyFloat (bits : Z)
| PyStr (s : string)
| PyList (l : list pyval)
| PyDict (m : gmap string pyval)
| PyDatetime (t : Z).

End Py.
Export Py.

(** ** Errors and the error monad

    Every exception a handler can meet ends in the same [except Exception]
    clause; the constructors keep apart where it came from. *)

Inductive error :=
| KeyError (k : string)
| TypeError
| AttributeError
| DataError (col : string)
| NotNullViolation (col : string)
| UniqueViolation (constraint : string)
| ForeignKeyViolation (constraint : string)
| SequenceExhausted (seq : string)
| ValueError.

Inductive res (A : Type) :=
| Ok (a : A)
| Err (e : error).
Arguments Ok {A} a.
Arguments Err {A} e.

#[global] Instance res_ret : MRet res := λ A a, Ok a.
#[global] Instance res_bind : MBind res := λ A B f m,
  match m with
  | Ok a => f a
  | Err e => Err e
  end.

(** [data[k]]: a [KeyError] on a dict without the key, a [TypeError] on
    anything that is not a dict. *)
Definition getitem (data : pyval) (k : string) : res pyval :=
  match data with
  | PyDict m =>
      match m !! k with
      | Some v => Ok v
      | None => Err (KeyError k)
      end
  | _ => Err TypeError
  end.

(** [data.get(k, dflt)]: the default only when the key is absent. *)
Definition get (data : pyval) (k : string) (dflt : pyval) : res pyval :=
  match data with
  | PyDict m => Ok (default dflt (m !! k))
  | _ => Err AttributeError
  end.

(** ** The schema of [init_db] *)

Module Round.
Record row := {
  round_id : Z;
  date : Z;
  course_name : option string;
  total_holes : option Z;
  total_shots : option Z;
  total_score : option Z;
  weather : option string;
  notes : option string;
  synced_to_local : option bool;
  created_at : option Z
}.
End Round.

Module Shot.
Record row := {
  shot_id : Z;
  round_id : Z;
  hole : Z;
  shot_number : Z;
  club : string;
  shot_type : string;
  latitude : Z;
  longitude : Z;
  accuracy : option Z;
  distance : option Z;
  elevation_change : option Z;
  wind_speed : option Z;
  wind_direction : option string;
  timestamp : option Z;
  created_at : option Z
}.
End Shot.

Module Hole.
Record row := {
  hole_id : Z;
  round_id : Z;
  hole_number : Z;
  score : Z;
  par : option Z;
  fairway_hit : option bool;
  green_in_regulation : option bool;
  putts : option Z;
  notes : option string;
  created_at : option Z
}.
End Hole.

(** A column declared NOT NULL has a plain type in the row, a nullable one
    an [option].  Timestamps are microseconds from 1970-01-01, REAL and
    DOUBLE PRECISION are bit patterns. *)
Record db := {
  rounds : list Round.row;
  shots : list Shot.row;
  holes : list Hole.row;
  shots_shot_id_seq : Z;
  holes_hole_id_seq : Z
}.

(** The database [init_db] leaves on a fresh server: three empty tables,
    two sequences that have not been used. *)
Definition empty_db : db :=
  {| rounds := []; shots := []; holes := [];
     shots_shot_id_seq := 0; holes_hole_id_seq := 0 |}.

(** The two clocks a request reads: [datetime.now()] in the application and
    CURRENT_TIMESTAMP in the database. *)
Record clock := { py_now : Z; pg_now : Z }.

(** The values of one INSERT, after conversion to the column types:
    [None] is NULL. *)
Record shot_params := {
  sp_round_id : option Z;
  sp_hole : option Z;
  sp_shot_number : option Z;
  sp_club : option string;
  sp_shot_type : option string;
  sp_latitude : option Z;
  sp_longitude : option Z;
  sp_accuracy : option Z;
  sp_distance : option Z;
  sp_timestamp : option Z
}.

Record hole_params := {
  hp_round_id : option Z;
  hp_hole_number : option Z;
  hp_score : option Z;
  hp_notes : option string
}.

Record round_params := {
  rp_round_id : option Z;
  rp_date : option Z;
  rp_course_name : option string;
  rp_total_holes : option Z;
  rp_total_shots : option Z
}.

Module Sql.

(** Largest value of a SERIAL sequence. *)
Definition SERIAL_MAX : Z := 2147483647.

Definition not_null {A} (col : string) (v : option A) : res A :=
  match v with
  | Some a => Ok a
  | None => Err (NotNullViolation col)
  end.

Definition round_ids (d : db) : list Z := Round.round_id <$> rounds d.
Definition shot_ids (d : db) : list Z := Shot.shot_id <$> shots d.
Definition hole_ids (d : db) : list Z := Hole.hole_id <$> holes d.

(** The row with a given primary key. *)
Definition find_in (id : Z) (l : list Round.row) : option Round.row :=
  snd <$> list_find (λ r, Round.round_id r = id) l.

Definition find_round (id : Z) (d : db) : option Round.row :=
  find_in id (rounds d).

Definition set_shots_seq (v : Z) (d : db) : db :=
  {| rounds := rounds d; shots := shots d; holes := holes d;
     shots_shot_id_seq := v; holes_hole_id_seq := holes_hole_id_seq d |}.

Definition set_holes_seq (v : Z) (d : db) : db :=
  {| rounds := rounds d; shots := shots d; holes := holes d;
     shots_shot_id_seq := shots_shot_id_seq d; holes_hole_id_seq := v |}.

Definition add_shot (s : Shot.row) (d : db) : db :=
  {| rounds := rounds d; shots := shots d ++ [s]; holes := holes d;
     shots_shot_id_seq := shots_shot_id_seq d;
     holes_hole_id_seq := holes_hole_id_seq d |}.

Definition add_hole (h : Hole.row) (d : db) : db :=
  {| rounds := rounds d; shots := shots d; holes := holes d ++ [h];
     shots_shot_id_seq := shots_shot_id_seq d;
     holes_hole_id_seq := holes_hole_id_seq d |}.

Definition set_rounds (l : list Round.row) (d : db) : db :=
  {| rounds := l; shots := shots d; holes := holes d;
     shots_shot_id_seq := shots_shot_id_seq d;
     holes_hole_id_seq := holes_hole_id_seq d |}.

(** The NOT NULL columns of [shots], checked in column order; the columns
    the INSERT does not name get their default, NULL or CURRENT_TIMESTAMP. *)
Definition shot_row (id now : Z) (p : shot_params) : res Shot.row :=
  rid ← not_null "round_id" (sp_round_id p);
  h ← not_null "hole" (sp_hole p);
  n ← not_null "shot_number" (sp_shot_number p);
  c ← not_null "club" (sp_club p);
  t ← not_null "shot_type" (sp_shot_type p);
  lat ← not_null "latitude" (sp_latitude p);
  lon ← not_null "longitude" (sp_longitude p);
  Ok {| Shot.shot_id := id; Shot.round_id := rid; Shot.hole := h;
        Shot.shot_number := n; Shot.club := c; Shot.shot_type := t;
        Shot.latitude := lat; Shot.longitude := lon;
        Shot.accuracy := sp_accuracy p; Shot.distance := sp_distance p;
        Shot.elevation_change := None; Shot.wind_speed := None;
        Shot.wind_direction := None; Shot.timestamp := sp_timestamp p;
        Shot.created_at := Some now |}.

(** INSERT INTO shots ... RETURNING shot_id.  [nextval] comes first and is
    not undone when the statement fails afterwards; then NOT NULL, the
    primary key, and the foreign key to [rounds]. *)
Definition insert_shot (now : Z) (p : shot_params) (d : db) : db * res Z :=
  if decide (shots_shot_id_seq d < SERIAL_MAX)%Z then
    let id := (shots_shot_id_seq d + 1)%Z in
    let d1 := set_shots_seq id d in
    match shot_row id now p with
    | Err e => (d1, Err e)
    | Ok s =>
        if decide (id ∈ shot_ids d) then (d1, Err (UniqueViolation "shots_pkey"))
        else if decide (Shot.round_id s ∈ round_ids d) then (add_shot s d1, Ok id)
        else (d1, Err (ForeignKeyViolation "shots_round_id_fkey"))
    end
  else (d, Err (SequenceExhausted "shots_shot_id_seq")).

Definition hole_row (id now : Z) (p : hole_params) : res Hole.row :=
  rid ← not_null "round_id" (hp_round_id p);
  n ← not_null "hole_number" (hp_hole_number p);
  s ← not_null "score" (hp_score p);
  Ok {| Hole.hole_id := id; Hole.round_id := rid; Hole.hole_number := n;
        Hole.score := s; Hole.par := None; Hole.fairway_hit := None;
        Hole.green_in_regulation := None; Hole.putts := None;
        Hole.notes := hp_notes p; Hole.created_at := Some now |}.

(** INSERT INTO holes. *)
Definition insert_hole (now : Z) (p : hole_params) (d : db) : db * res unit :=
  if decide (holes_hole_id_seq d < SERIAL_MAX)%Z then
    let id := (holes_hole_id_seq d + 1)%Z in
    let d1 := set_holes_seq id d in
    match hole_row id now p with
    | Err e => (d1, Err e)
    | Ok h =>
        if decide (id ∈ hole_ids d) then (d1, Err (UniqueViolation "holes_pkey"))
        else if decide (Hole.round_id h ∈ round_ids d) then (add_hole h d1, Ok ())
        else (d1, Err (ForeignKeyViolation "holes_round_id_fkey"))
    end
  else (d, Err (SequenceExhausted "holes_hole_id_seq")).

(** The row a plain INSERT INTO rounds would store: [synced_to_local] and
    [created_at] take their defaults, the other unnamed columns are NULL. *)
Definition new_round (id dt now : Z) (p : round_params) : Round.row :=
  {| Round.round_id := id; Round.date := dt;
     Round.course_name := rp_course_name p;
     Round.total_holes := rp_total_holes p;
     Round.total_shots := rp_total_shots p;
     Round.total_score := None; Round.weather := None; Round.notes := None;
     Round.synced_to_local := Some false; Round.created_at := Some now |}.

(** DO UPDATE SET course_name, total_holes, total_shots, date = EXCLUDED. *)
Definition excluded (dt : Z) (p : round_params) (r : Round.row) : Round.row :=
  {| Round.round_id := Round.round_id r; Round.date := dt;
     Round.course_name := rp_course_name p;
     Round.total_holes := rp_total_holes p;
     Round.total_shots := rp_total_shots p;
     Round.total_score := Round.total_score r;
     Round.weather := Round.weather r; Round.notes := Round.notes r;
     Round.synced_to_local := Round.synced_to_local r;
     Round.created_at := Round.created_at r |}.

(** INSERT INTO rounds ... ON CONFLICT (round_id) DO UPDATE.  The NOT NULL
    columns of the proposed row are checked before the conflict is looked
    for. *)
Definition upsert_round (now : Z) (p : round_params) (d : db) : db * res unit :=
  match (id ← not_null "round_id" (rp_round_id p);
         dt ← not_null "date" (rp_date p); Ok (id, dt)) with
  | Err e => (d, Err e)
  | Ok (id, dt) =>
      if decide (id ∈ round_ids d) then
        (set_rounds ((λ r, if decide (Round.round_id r = id)
                           then excluded dt p r else r) <$> rounds d) d, Ok ())
      else (set_rounds (rounds d ++ [new_round id dt now p]) d, Ok ())
  end.

Definition mark (r : Round.row) : Round.row :=
  {| Round.round_id := Round.round_id r; Round.date := Round.date r;
     Round.course_name := Round.course_name r;
     Round.total_holes := Round.total_holes r;
     Round.total_shots := Round.total_shots r;
     Round.total_score := Round.total_score r;
     Round.weather := Round.weather r; Round.notes := Round.notes r;
     Round.synced_to_local := Some true;
     Round.created_at := Round.created_at r |}.

(** UPDATE rounds SET synced_to_local = TRUE WHERE round_id = id. *)
Definition update_synced (id : Z) (d : db) : db :=
  set_rounds ((λ r, if decide (Round.round_id r = id) then mark r else r)
                <$> rounds d) d.

(** ORDER BY date DESC. *)
Definition date_desc (r1 r2 : Round.row) : Prop :=
  (Round.date r2 ≤ Round.date r1)%Z.

(** ORDER BY hole, shot_number. *)
Definition hole_shot_asc (s1 s2 : Shot.row) : Prop :=
  (Shot.hole s1 < Shot.hole s2)%Z ∨
  (Shot.hole s1 = Shot.hole s2 ∧ (Shot.shot_number s1 ≤ Shot.shot_number s2)%Z).

(** ORDER BY hole_number. *)
Definition hole_number_asc (h1 h2 : Hole.row) : Prop :=
  (Hole.hole_number h1 ≤ Hole.hole_number h2)%Z.

#[global] Instance date_desc_dec r1 r2 : Decision (date_desc r1 r2).
Proof. unfold date_desc. apply _. Defined.
#[global] Instance hole_shot_asc_dec s1 s2 : Decision (hole_shot_asc s1 s2).
Proof. unfold hole_shot_asc. apply _. Defined.
#[global] Instance hole_number_asc_dec h1 h2 : Decision (hole_number_asc h1 h2).
Proof. unfold hole_number_asc. apply _. Defined.

(** SELECT * FROM rounds WHERE synced_to_local = FALSE ORDER BY date DESC.
    A NULL flag does not satisfy the comparison.  SQL leaves the order of
    rows with equal keys open; the sort used here is one admissible choice. *)
Definition select_unsynced (d : db) : list Round.row :=
  merge_sort date_desc
    (filter (λ r, Round.synced_to_local r = Some false) (rounds d)).

(** SELECT * FROM shots WHERE round_id = id ORDER BY hole, shot_number. *)
Definition select_shots (id : Z) (d : db) : list Shot.row :=
  merge_sort hole_shot_asc (filter (λ s, Shot.round_id s = id) (shots d)).

(** SELECT * FROM holes WHERE round_id = id ORDER BY hole_number. *)
Definition select_holes (id : Z) (d : db) : list Hole.row :=
  merge_sort hole_number_asc (filter (λ h, Hole.round_id h = id) (holes d)).

End Sql.

(** ** From Python objects to column values

    How a Python object other than [None] becomes a value of a column type
    is decided by psycopg2 and PostgreSQL, not by [app.py]: one function per
    column type, [None] when the value is refused.  [None] itself always
    becomes NULL, and a [datetime] always becomes that timestamp.

    The last field is the way back for a stored timestamp past the year
    9999, which Python's [datetime] does not have: psycopg2 cuts the year
    down before it calls the constructor, and the constructor may still
    refuse the result. *)
Record pg_input := {
  int8in : pyval → option Z;
  int4in : pyval → option Z;
  varcharin : nat → pyval → option string;
  textin : pyval → option string;
  float8in : pyval → option Z;
  float4in : pyval → option Z;
  timestamp_in : pyval → option Z;
  timestamp_out : Z → option Z
}.

Definition to_column {A} (conv : pyval → option A) (col : string)
    (v : pyval) : res (option A) :=
  match v with
  | PyNone => Ok None
  | _ =>
      match conv v with
      | Some a => Ok (Some a)
      | None => Err (DataError col)
      end
  end.

Definition to_timestamp (pg : pg_input) (col : string) (v : pyval) :
    res (option Z) :=
  match v with
  | PyDatetime t => Ok (Some t)
  | _ => to_column (timestamp_in pg) col v
  end.

(** ** From column values to Python objects

    [cur.fetchall()] builds a Python object for every column of every row.
    Integers, floats, strings and booleans always have one.  A timestamp
    becomes a [datetime], whose years run from [MINYEAR = 1] to
    [MAXYEAR = 9999], while a TIMESTAMP column holds years from 4713 BC on:
    for a timestamp before the year 1 the constructor raises.  Timestamps
    count microseconds from 1970-01-01 00:00:00, so [DATETIME_MIN] is
    0001-01-01 00:00:00 and [DATETIME_MAX] is 9999-12-31 23:59:59.999999. *)
Definition DATETIME_MIN : Z := -62135596800000000.
Definition DATETIME_MAX : Z := 253402300799999999.

Definition typecast_timestamp (pg : pg_input) (t : Z) : res Z :=
  if decide (t < DATETIME_MIN)%Z then Err ValueError
  else if decide (t ≤ DATETIME_MAX)%Z then Ok t
  else
    match timestamp_out pg t with
    | Some t' => Ok t'
    | None => Err ValueError
    end.

(** NULL becomes [None]. *)
Definition typecast_nullable (pg : pg_input) (t : option Z) :
    res (option Z) :=
  match t with
  | None => Ok None
  | Some t => t' ← typecast_timestamp pg t; Ok (Some t')
  end.

(** The rows of the three tables as Python receives them, column by
    column. *)
Definition fetch_round (pg : pg_input) (r : Round.row) : res Round.row :=
  date ← typecast_timestamp pg (Round.date r);
  created_at ← typecast_nullable pg (Round.created_at r);
  Ok {| Round.round_id := Round.round_id r; Round.date := date;
        Round.course_name := Round.course_name r;
        Round.total_holes := Round.total_holes r;
        Round.total_shots := Round.total_shots r;
        Round.total_score := Round.total_score r;
        Round.weather := Round.weather r; Round.notes := Round.notes r;
        Round.synced_to_local := Round.synced_to_local r;
        Round.created_at := created_at |}.

Definition fetch_shot (pg : pg_input) (s : Shot.row) : res Shot.row :=
  timestamp ← typecast_nullable pg (Shot.timestamp s);
  created_at ← typecast_nullable pg (Shot.created_at s);
  Ok {| Shot.shot_id := Shot.shot_id s; Shot.round_id := Shot.round_id s;
        Shot.hole := Shot.hole s; Shot.shot_number := Shot.shot_number s;
        Shot.club := Shot.club s; Shot.shot_type := Shot.shot_type s;
        Shot.latitude := Shot.latitude s; Shot.longitude := Shot.longitude s;
        Shot.accuracy := Shot.accuracy s; Shot.distance := Shot.distance s;
        Shot.elevation_change := Shot.elevation_change s;
        Shot.wind_speed := Shot.wind_speed s;
        Shot.wind_direction := Shot.wind_direction s;
        Shot.timestamp := timestamp; Shot.created_at := created_at |}.

Definition fetch_hole (pg : pg_input) (h : Hole.row) : res Hole.row :=
  created_at ← typecast_nullable pg (Hole.created_at h);
  Ok {| Hole.hole_id := Hole.hole_id h; Hole.round_id := Hole.round_id h;
        Hole.hole_number := Hole.hole_number h; Hole.score := Hole.score h;
        Hole.par := Hole.par h; Hole.fairway_hit := Hole.fairway_hit h;
        Hole.green_in_regulation := Hole.green_in_regulation h;
        Hole.putts := Hole.putts h; Hole.notes := Hole.notes h;
        Hole.created_at := created_at |}.

(** A loop that stops at the first exception. *)
Fixpoint for_each {A B} (f : A → res B) (l : list A) : res (list B) :=
  match l with
  | [] => Ok []
  | x :: l => y ← f x; ys ← for_each f l; Ok (y :: ys)
  end.

(** [cur.fetchall()] on the rows a query selected. *)
Definition fetchall {A} (cast : A → res A) (rows : list A) : res (list A) :=
  for_each cast rows.

(** ** Responses *)

(** One element of the [data] list of the export. *)
Record export_item := {
  ex_round : Round.row;
  ex_shots : list Shot.row;
  ex_holes : list Hole.row
}.

(** The JSON bodies the handlers build. *)
Inductive body :=
| Success
| SuccessShot (shot_id : Z)
| SuccessData (data : list export_item)
| Failure (e : error)
| Healthy
| Page.

Record response := { status : Z; payload : body }.

(** [jsonify(...)] and [jsonify(...), 500]. *)
Definition jsonify (b : body) : response := {| status := 200; payload := b |}.
Definition jsonify_500 (e : error) : response :=
  {| status := 500; payload := Failure e |}.

(** ** The handlers *)

(** The argument tuples of [cur.execute], still Python objects. *)
Record shot_args := {
  sa_round_id : pyval;
  sa_hole : pyval;
  sa_shot_number : pyval;
  sa_club : pyval;
  sa_shot_type : pyval;
  sa_latitude : pyval;
  sa_longitude : pyval;
  sa_accuracy : pyval;
  sa_distance : pyval;
  sa_timestamp : pyval
}.

Record hole_args := {
  ha_round_id : pyval;
  ha_hole : pyval;
  ha_score : pyval;
  ha_notes : pyval
}.

Record round_args := {
  ra_round_id : pyval;
  ra_date : pyval;
  ra_course_name : pyval;
  ra_total_holes : pyval;
  ra_total_shots : pyval
}.

(** The tuple of [save_shot], built left to right. *)
Definition shot_tuple (clk : clock) (data : pyval) : res shot_args :=
  round_id ← getitem data "round_id";
  hole ← getitem data "hole";
  shot_number ← getitem data "shot_number";
  club ← getitem data "club";
  shot_type ← getitem data "shot_type";
  latitude ← getitem data "latitude";
  longitude ← getitem data "longitude";
  accuracy ← get data "accuracy" PyNone;
  distance ← get data "distance" PyNone;
  timestamp ← get data "timestamp" (PyDatetime (py_now clk));
  Ok {| sa_round_id := round_id; sa_hole := hole;
        sa_shot_number := shot_number; sa_club := club;
        sa_shot_type := shot_type; sa_latitude := latitude;
        sa_longitude := longitude; sa_accuracy := accuracy;
        sa_distance := distance; sa_timestamp := timestamp |}.

(** The tuple of [save_hole]. *)
Definition hole_tuple (data : pyval) : res hole_args :=
  round_id ← getitem data "round_id";
  hole ← getitem data "hole";
  score ← getitem data "score";
  notes ← get data "notes" (PyStr "");
  Ok {| ha_round_id := round_id; ha_hole := hole; ha_score := score;
        ha_notes := notes |}.

(** The tuple of [save_round]. *)
Definition round_tuple (clk : clock) (data : pyval) : res round_args :=
  round_id ← getitem data "round_id";
  date ← get data "date" (PyDatetime (py_now clk));
  course_name ← get data "course_name" (PyStr "");
  total_holes ← get data "total_holes" PyNone;
  total_shots ← get data "total_shots" PyNone;
  Ok {| ra_round_id := round_id; ra_date := date;
        ra_course_name := course_name; ra_total_holes := total_holes;
        ra_total_shots := total_shots |}.

Section Handlers.

Variable pg : pg_input.

(** The tuple of [save_shot] at the column types of [shots]. *)
Definition shot_values (a : shot_args) : res shot_params :=
  round_id ← to_column (int8in pg) "round_id" (sa_round_id a);
  hole ← to_column (int4in pg) "hole" (sa_hole a);
  shot_number ← to_column (int4in pg) "shot_number" (sa_shot_number a);
  club ← to_column (varcharin pg 50) "club" (sa_club a);
  shot_type ← to_column (varcharin pg 50) "shot_type" (sa_shot_type a);
  latitude ← to_column (float8in pg) "latitude" (sa_latitude a);
  longitude ← to_column (float8in pg) "longitude" (sa_longitude a);
  accuracy ← to_column (float4in pg) "accuracy" (sa_accuracy a);
  distance ← to_column (int4in pg) "distance" (sa_distance a);
  timestamp ← to_timestamp pg "timestamp" (sa_timestamp a);
  Ok {| sp_round_id := round_id; sp_hole := hole;
        sp_shot_number := shot_number; sp_club := club;
        sp_shot_type := shot_type; sp_latitude := latitude;
        sp_longitude := longitude; sp_accuracy := accuracy;
        sp_distance := distance; sp_timestamp := timestamp |}.

Definition hole_values (a : hole_args) : res hole_params :=
  round_id ← to_column (int8in pg) "round_id" (ha_round_id a);
  hole_number ← to_column (int4in pg) "hole_number" (ha_hole a);
  score ← to_column (int4in pg) "score" (ha_score a);
  notes ← to_column (textin pg) "notes" (ha_notes a);
  Ok {| hp_round_id := round_id; hp_hole_number := hole_number;
        hp_score := score; hp_notes := notes |}.

Definition round_values (a : round_args) : res round_params :=
  round_id ← to_column (int8in pg) "round_id" (ra_round_id a);
  date ← to_timestamp pg "date" (ra_date a);
  course_name ← to_column (varcharin pg 255) "course_name" (ra_course_name a);
  total_holes ← to_column (int4in pg) "total_holes" (ra_total_holes a);
  total_shots ← to_column (int4in pg) "total_shots" (ra_total_shots a);
  Ok {| rp_round_id := round_id; rp_date := date;
        rp_course_name := course_name; rp_total_holes := total_holes;
        rp_total_shots := total_shots |}.

(** What reaches the INSERT of each handler. *)
Definition shot_request (clk : clock) (data : pyval) : res shot_params :=
  shot_tuple clk data ≫= shot_values.

Definition hole_request (data : pyval) : res hole_params :=
  hole_tuple data ≫= hole_values.

Definition round_request (clk : clock) (data : pyval) : res round_params :=
  round_tuple clk data ≫= round_values.

(** POST /api/shot.  An exception before [cur.execute] leaves the database
    as it was; one raised by the statement leaves what the statement left,
    since nothing is committed. *)
Definition save_shot (clk : clock) (d : db) (data : pyval) : db * response :=
  match shot_request clk data with
  | Err e => (d, jsonify_500 e)
  | Ok p =>
      match Sql.insert_shot (pg_now clk) p d with
      | (d', Ok shot_id) => (d', jsonify (SuccessShot shot_id))
      | (d', Err e) => (d', jsonify_500 e)
      end
  end.

(** POST /api/hole. *)
Definition save_hole (clk : clock) (d : db) (data : pyval) : db * response :=
  match hole_request data with
  | Err e => (d, jsonify_500 e)
  | Ok p =>
      match Sql.insert_hole (pg_now clk) p d with
      | (d', Ok _) => (d', jsonify Success)
      | (d', Err e) => (d', jsonify_500 e)
      end
  end.

(** POST /api/round. *)
Definition save_round (clk : clock) (d : db) (data : pyval) : db * response :=
  match round_request clk data with
  | Err e => (d, jsonify_500 e)
  | Ok p =>
      match Sql.upsert_round (pg_now clk) p d with
      | (d', Ok _) => (d', jsonify Success)
      | (d', Err e) => (d', jsonify_500 e)
      end
  end.

(** The body of the loop of [export_unsynced]: the shots and the holes of
    one round that has been fetched. *)
Definition export_round (d : db) (round_data : Round.row) : res export_item :=
  shots ← fetchall (fetch_shot pg)
             (Sql.select_shots (Round.round_id round_data) d);
  holes ← fetchall (fetch_hole pg)
             (Sql.select_holes (Round.round_id round_data) d);
  Ok {| ex_round := round_data; ex_shots := shots; ex_holes := holes |}.

(** GET /api/export/unsynced: one query for the rounds, then two per round.
    The handler writes nothing; an exception raised while the rows are
    fetched ends in its [except] clause. *)
Definition export_unsynced (d : db) : db * response :=
  match
    rounds ← fetchall (fetch_round pg) (Sql.select_unsynced d);
    for_each (export_round d) rounds
  with
  | Ok result => (d, jsonify (SuccessData result))
  | Err e => (d, jsonify_500 e)
  end.

(** POST /api/mark-synced/<round_id>.  The path segment is a string; in
    [WHERE round_id = %s] it is a quoted literal that PostgreSQL reads as a
    bigint. *)
Definition mark_synced (d : db) (round_id : string) : db * response :=
  match int8in pg (PyStr round_id) with
  | None => (d, jsonify_500 (DataError "round_id"))
  | Some id => (Sql.update_synced id d, jsonify Success)
  end.

(** GET /health: SELECT 1. *)
Definition health_check (d : db) : db * response := (d, jsonify Healthy).

(** GET /. *)
Definition index (d : db) : db * response := (d, jsonify Page).

(** ** Sequences of requests *)

Inductive api_call :=
| POST_shot (data : pyval)
| POST_hole (data : pyval)
| POST_round (data : pyval)
| GET_export_unsynced
| POST_mark_synced (round_id : string)
| GET_health
| GET_index.

Definition handle (clk : clock) (c : api_call) (d : db) : db * response :=
  match c with
  | POST_shot data => save_shot clk d data
  | POST_hole data => save_hole clk d data
  | POST_round data => save_round clk d data
  | GET_export_unsynced => export_unsynced d
  | POST_mark_synced round_id => mark_synced d round_id
  | GET_health => health_check d
  | GET_index => index d
  end.

(** The state after a list of requests, each with the clocks it saw. *)
Fixpoint run (calls : list (clock * api_call)) (d : db) : db :=
  match calls with
  | [] => d
  | (clk, c) :: calls => run calls (handle clk c d).1
  end.

End Handlers.

(** ** The invariant the schema maintains

    Primary keys are unique, every shot and hole points at a stored round,
    and no stored serial identifier is ahead of its sequence. *)
Record db_wf (d : db) : Prop := {
  wf_rounds_pkey : NoDup (Sql.round_ids d);
  wf_shots_pkey : NoDup (Sql.shot_ids d);
  wf_holes_pkey : NoDup (Sql.hole_ids d);
  wf_shots_fkey : Forall (λ s, Shot.round_id s ∈ Sql.round_ids d) (shots d);
  wf_holes_fkey : Forall (λ h, Hole.round_id h ∈ Sql.round_ids d) (holes d);
  wf_shots_seq : Forall (λ id, id ≤ shots_shot_id_seq d)%Z (Sql.shot_ids d);
  wf_holes_seq : Forall (λ id, id ≤ holes_hole_id_seq d)%Z (Sql.hole_ids d)
}.

(** The fields [save_shot] reads with [data[...]] and with [data.get(...)]. *)
Definition shot_required : list string :=
  ["round_id"; "hole"; "shot_number"; "club"; "shot_type"; "latitude";
   "longitude"].

Definition shot_optional : list string := ["accuracy"; "distance"; "timestamp"].

(** The round a shot or hole request names, when it names one. *)
Definition request_round_id (pg : pg_input) (data : pyval) : option Z :=
  match getitem data "round_id" with
  | Ok PyNone => None
  | Ok v => int8in pg v
  | Err _ => None
  end.

(** Two INSERTs into [shots] that agree on the NOT NULL columns. *)
Definition same_required (p p' : shot_params) : Prop :=
  sp_round_id p' = sp_round_id p ∧ sp_hole p' = sp_hole p ∧
  sp_shot_number p' = sp_shot_number p ∧ sp_club p' = sp_club p ∧
  sp_shot_type p' = sp_shot_type p ∧ sp_latitude p' = sp_latitude p ∧
  sp_longitude p' = sp_longitude p.

(** What [save_round] leaves alone in a round row. *)
Definition round_frame (r : Round.row) : Z * option bool * option Z :=
  (Round.round_id r, Round.synced_to_local r, Round.created_at r).

(** ** A conversion table for the examples

    It accepts a value that already has the type of the column, and a
    decimal string for an integer column; it refuses everything else, which
    PostgreSQL does not always do.  The examples below use it only on
    values it accepts or on [None]. *)

Fixpoint decimal (s : string) (acc : Z) : option Z :=
  match s with
  | EmptyString => Some acc
  | String a s =>
      let n := Z.of_nat (Ascii.nat_of_ascii a) in
      if decide (48 ≤ n ≤ 57)%Z then decimal s (10 * acc + (n - 48))%Z
      else None
  end.

Definition int_of_str (s : string) : option Z :=
  match s with
  | EmptyString => None
  | _ => decimal s 0
  end.

Definition in_bits (w : Z) (z : Z) : option Z :=
  if decide (- 2 ^ (w - 1) ≤ z < 2 ^ (w - 1))%Z then Some z else None.

Definition plain_int (w : Z) (v : pyval) : option Z :=
  match v with
  | PyInt z => in_bits w z
  | PyStr s => int_of_str s ≫= in_bits w
  | _ => None
  end.

Definition plain_str (n : option nat) (v : pyval) : option string :=
  match v with
  | PyStr s =>
      match n with
      | Some n => if decide (String.length s ≤ n) then Some s else None
      | None => Some s
      end
  | _ => None
  end.

Definition plain_float8 (v : pyval) : option Z :=
  match v with
  | PyFloat bits => Some bits
  | _ => None
  end.

Definition pg_plain : pg_input :=
  {| int8in := plain_int 64;
     int4in := plain_int 32;
     varcharin := λ n, plain_str (Some n);
     textin := plain_str None;
     float8in := plain_float8;
     float4in := λ _, None;
     timestamp_in := λ _, None;
     timestamp_out := λ _, None |}.

(** The requests of the end-to-end scenario: latitude 36.5 and longitude
    -121.9 as binary64. *)
Definition clk0 : clock := {| py_now := 1700000000000000; pg_now := 1700000000000042 |}.
Definition clk1 : clock := {| py_now := 1700000060000000; pg_now := 1700000060000042 |}.

Definition round_1001 : pyval :=
  PyDict (list_to_map
    [("round_id", PyInt 1001); ("course_name", PyStr "Pebble Creek");
     ("total_holes", PyInt 0); ("total_shots", PyInt 0)]).

Definition round_1001_renamed : pyval :=
  PyDict (list_to_map
    [("round_id", PyInt 1001); ("course_name", PyStr "Spyglass");
     ("total_holes", PyInt 18); ("total_shots", PyInt 91)]).

Definition round_null_date : pyval :=
  PyDict (list_to_map [("round_id", PyInt 1001); ("date", PyNone)]).

Definition shot_fields : list (string * pyval) :=
  [("round_id", PyInt 1001); ("hole", PyInt 1); ("shot_number", PyInt 1);
   ("club", PyStr "Driver"); ("shot_type", PyStr "Tee");
   ("latitude", PyFloat 0x4042400000000000);
   ("longitude", PyFloat 0xC05E79999999999A)].

Definition shot_map : gmap string pyval := list_to_map shot_fields.

Definition shot_map_null_timestamp : gmap string pyval :=
  list_to_map (("timestamp", PyNone) :: shot_fields).

Definition shot_1001 : pyval := PyDict shot_map.

Definition shot_null_timestamp : pyval := PyDict shot_map_null_timestamp.

(** The same shot with another hole and shot number. *)
Definition shot_at (hole shot_number : Z) : pyval :=
  PyDict (<["hole" := PyInt hole]>
            (<["shot_number" := PyInt shot_number]> shot_map)).

Definition hole_1001 : pyval :=
  PyDict (list_to_map
    [("round_id", PyInt 1001); ("hole", PyInt 1); ("score", PyInt 4)]).

(** What the export answers: the key of each round with the shot numbers
    and hole numbers listed under it. *)
Definition exported (r : response) : list (Z * list Z * list Z) :=
  match payload r with
  | SuccessData data =>
      (λ it, (Round.round_id (ex_round it),
              Shot.shot_number <$> ex_shots it,
              Hole.hole_number <$> ex_holes it)) <$> data
  | _ => []
  end.

(** The database after POST /api/round with [round_1001], and after
    POST /api/mark-synced/1001 on top of it. *)
Definition db_1001 : db := (save_round pg_plain clk0 empty_db round_1001).1.

Definition db_1001_synced : db := (mark_synced pg_plain db_1001 "1001").1.

Definition row_1001 : Round.row :=
  {| Round.round_id := 1001; Round.date := py_now clk0;
     Round.course_name := Some "Pebble Creek";
     Round.total_holes := Some 0%Z; Round.total_shots := Some 0%Z;
     Round.total_score := None; Round.weather := None; Round.notes := None;
     Round.synced_to_local := Some false;
     Round.created_at := Some (pg_now clk0) |}.

(** ** The rest of the server

    The keys [save_hole] reads with [data[...]]. *)
Definition hole_required : list string := ["round_id"; "hole"; "score"].

(** The first of [keys] that the object [m] lacks. *)
Definition first_missing (keys : list string) (m : gmap string pyval) :
    option string :=
  head (filter (λ k, m !! k = None) keys).

(** The keys of the rounds in the answer of the export. *)
Definition exported_ids (pg : pg_input) (d : db) : list Z :=
  match payload (export_unsynced pg d).2 with
  | SuccessData data => (λ it, Round.round_id (ex_round it)) <$> data
  | _ => []
  end.

(** ** Rows that Python reads as they are stored

    A timestamp within the years of [datetime], and the rows whose
    timestamps all are. *)
Definition in_datetime (t : Z) : Prop := (DATETIME_MIN ≤ t ≤ DATETIME_MAX)%Z.

Definition null_or_in_datetime (t : option Z) : Prop :=
  match t with
  | Some t => in_datetime t
  | None => True
  end.

Definition round_readable (r : Round.row) : Prop :=
  in_datetime (Round.date r) ∧ null_or_in_datetime (Round.created_at r).

Definition shot_readable (s : Shot.row) : Prop :=
  null_or_in_datetime (Shot.timestamp s) ∧
  null_or_in_datetime (Shot.created_at s).

Definition hole_readable (h : Hole.row) : Prop :=
  null_or_in_datetime (Hole.created_at h).

#[global] Instance in_datetime_dec t : Decision (in_datetime t).
Proof. unfold in_datetime. apply _. Defined.

#[global] Instance null_or_in_datetime_dec t :
  Decision (null_or_in_datetime t).
Proof. destruct t; simpl; apply _. Defined.

#[global] Instance round_readable_dec r : Decision (round_readable r).
Proof. unfold round_readable. apply _. Defined.

#[global] Instance shot_readable_dec s : Decision (shot_readable s).
Proof. unfold shot_readable. apply _. Defined.

#[global] Instance hole_readable_dec h : Decision (hole_readable h).
Proof. unfold hole_readable. apply _. Defined.

(** The keys of the rounds whose flag is false. *)
Definition unsynced_ids (d : db) : list Z :=
  Round.round_id
    <$> filter (λ r, Round.synced_to_local r = Some false) (rounds d).

(** The rows the export fetches from [d] are the rounds whose flag is
    false and the shots and holes that point at one of them.  In
    [export_readable d] every timestamp among them lies within the years 1
    to 9999. *)
Definition export_readable (d : db) : Prop :=
  Forall round_readable
    (filter (λ r, Round.synced_to_local r = Some false) (rounds d)) ∧
  Forall (λ s, Shot.round_id s ∈ unsynced_ids d → shot_readable s) (shots d) ∧
  Forall (λ h, Hole.round_id h ∈ unsynced_ids d → hole_readable h) (holes d).

#[global] Instance export_readable_dec d : Decision (export_readable d).
Proof. unfold export_readable. apply _. Defined.

(** What the three queries of the export select from [d], before Python
    reads the rows. *)
Definition export_rows (d : db) : list export_item :=
  (λ round_data,
     {| ex_round := round_data;
        ex_shots := Sql.select_shots (Round.round_id round_data) d;
        ex_holes := Sql.select_holes (Round.round_id round_data) d |})
  <$> Sql.select_unsynced d.




(** [s.startswith(pre)]. *)
Fixpoint startswith (s pre : string) : bool :=
  match pre, s with
  | EmptyString, _ => true
  | String _ _, EmptyString => false
  | String a pre, String b s =>
      if decide (a = b) then startswith s pre else false
  end.

(** [s[n:]]. *)
Fixpoint str_drop (n : nat) (s : string) : string :=
  match n, s with
  | O, _ => s
  | S n, String _ s => str_drop n s
  | S _, EmptyString => EmptyString
  end.

(** [s.replace(old, new, 1)]: the leftmost occurrence of [old], if there
    is one. *)
Fixpoint replace_1 (old new s : string) : string :=
  if startswith s old then new +:+ str_drop (String.length old) s
  else
    match s with
    | EmptyString => EmptyString
    | String a s => String a (replace_1 old new s)
    end.

(** The module-level code on [DATABASE_URL]: [os.environ.get] gives [None]
    for an unset variable, and an empty string is false. *)
Definition DATABASE_URL (env : option string) : option string :=
  match env with
  | None => None
  | Some EmptyString => Some EmptyString
  | Some url =>
      if startswith url "postgres://"
      then Some (replace_1 "postgres://" "postgresql://" url)
      else Some url
  end.

(** ** The page script

    The state of the script is its global variables and the form fields it
    reads and writes; what it shows on the page is left out.  A function of
    the script takes the state to a new state and to the alerts and
    requests it issues.  The counters [currentHole], [shot_number] and
    [roundId] are integers; the coordinates are binary64 bit patterns, as
    on the server. *)

Module Client.

(** What the script uses and does not define by integer or string
    operations: its own [calculateDistance], which is floating-point
    arithmetic; how a number written by [JSON.stringify] is read by the
    server; [String.prototype.trim]; and the text a template literal
    writes for a number. *)
Record js := {
  calculateDistance : Z → Z → Z → Z → Z;
  json_number : Z → pyval;
  trim : string → string;
  number_text : Z → string
}.

(** [position.coords]. *)
Record position := {
  coords_latitude : Z;
  coords_longitude : Z;
  coords_accuracy : Z
}.

(** An element of [shots]; [distance] is [None] when the object has no
    such property. *)
Record shot := {
  shot_number : Z;
  hole : Z;
  club : string;
  shot_type : string;
  latitude : Z;
  longitude : Z;
  accuracy : Z;
  timestamp : string;
  distance : option Z
}.

Record state := {
  currentPosition : option position;
  shots : list shot;
  currentHole : Z;
  roundId : Z;
  holeNotes : gmap Z string;
  courseName : string;
  savedCourses : list string;
  club_value : string;
  shot_type_value : string;
  hole_notes_value : string;
  hole_score_value : string;
  course_name_value : string
}.

Inductive message :=
| select_club
| waiting_for_gps
| enter_score
| hole_complete (hole : Z) (score : string)
| round_complete
| waiting_for_gps_location
| found_courses (size : nat)
| no_courses_found
| could_not_search.

(** A request carries the address [fetch] is given and its body: the
    object written by [JSON.stringify] for the page's own server, the text
    of the query for the course search. *)
Inductive effect :=
| alert (msg : message)
| fetch (path : string) (body : pyval).

(** What comes back from the course search: [no_answer] when [fetch]
    fails, when the status is not a success, or when the body is not the
    JSON the script reads; otherwise the [tags.name] of each element, with
    [None] for an element that has none. *)
Inductive overpass_answer :=
| no_answer
| elements (names : list (option string)).

(** The state when the page has loaded at time [now] with the courses
    [saved] in local storage. *)
Definition load (now : Z) (saved : list string) : state :=
  {| currentPosition := None; shots := []; currentHole := 1; roundId := now;
     holeNotes := ∅; courseName := ""; savedCourses := saved;
     club_value := ""; shot_type_value := "Tee"; hole_notes_value := "";
     hole_score_value := ""; course_name_value := "" |}.

(** [shots.filter(s => s.hole === hole)]. *)
Definition hole_shots (h : Z) (l : list shot) : list shot :=
  filter (λ s, hole s = h) l.

Section Script.

Variable env : js.

(** What [JSON.stringify] writes for a shot, as the server reads it. *)
Definition shot_json (s : shot) : list (string * pyval) :=
  [("shot_number", PyInt (shot_number s)); ("hole", PyInt (hole s));
   ("club", PyStr (club s)); ("shot_type", PyStr (shot_type s));
   ("latitude", json_number env (latitude s));
   ("longitude", json_number env (longitude s));
   ("accuracy", json_number env (accuracy s));
   ("timestamp", PyStr (timestamp s))] ++
  match distance s with
  | Some yards => [("distance", json_number env yards)]
  | None => []
  end.

(** The body of [saveShot]: [{...shot, round_id: roundId}]. *)
Definition shot_body (round_id : Z) (s : shot) : pyval :=
  PyDict (list_to_map (shot_json s ++ [("round_id", PyInt round_id)])).

(** The body of [saveHoleScore]. *)
Definition hole_body (round_id h : Z) (score notes : string)
    (l : list shot) : pyval :=
  PyDict (list_to_map
    [("round_id", PyInt round_id); ("hole", PyInt h); ("score", PyStr score);
     ("notes", PyStr notes);
     ("shots", PyList ((λ s, PyDict (list_to_map (shot_json s)))
                         <$> hole_shots h l))]).

(** The body of [saveRoundSummary]. *)
Definition round_body (st : state) (iso : string) : pyval :=
  PyDict (list_to_map
    [("round_id", PyInt (roundId st));
     ("course_name", PyStr (trim env (course_name_value st)));
     ("total_holes", PyInt (currentHole st - 1));
     ("total_shots", PyInt (Z.of_nat (length (shots st))));
     ("shots", PyList ((λ s, PyDict (list_to_map (shot_json s)))
                         <$> shots st));
     ("date", PyStr iso)]).

(** The shot [recordShot] builds at the time [iso]. *)
Definition new_shot (st : state) (p : position) (iso : string) : shot :=
  let currentHoleShots := hole_shots (currentHole st) (shots st) in
  {| shot_number := Z.of_nat (length currentHoleShots) + 1;
     hole := currentHole st;
     club := club_value st;
     shot_type := shot_type_value st;
     latitude := coords_latitude p;
     longitude := coords_longitude p;
     accuracy := coords_accuracy p;
     timestamp := iso;
     distance :=
       match last currentHoleShots with
       | Some lastShot =>
           Some (calculateDistance env (latitude lastShot)
                   (longitude lastShot) (coords_latitude p)
                   (coords_longitude p))
       | None => None
       end |}.

Definition recordShot (iso : string) (st : state) : state * list effect :=
  if decide (club_value st = "") then (st, [alert select_club])
  else
    match currentPosition st with
    | None => (st, [alert waiting_for_gps])
    | Some p =>
        let s := new_shot st p iso in
        ({| currentPosition := currentPosition st;
            shots := shots st ++ [s];
            currentHole := currentHole st; roundId := roundId st;
            holeNotes := holeNotes st; courseName := courseName st;
            savedCourses := savedCourses st;
            club_value := "";
            shot_type_value := shot_type_value st;
            hole_notes_value := hole_notes_value st;
            hole_score_value := hole_score_value st;
            course_name_value := course_name_value st |},
         [fetch "/api/shot" (shot_body (roundId st) s)])
    end.

Definition finishHole (st : state) : state * list effect :=
  let score := hole_score_value st in
  let notes := hole_notes_value st in
  if decide (score = "") then (st, [alert enter_score])
  else
    ({| currentPosition := currentPosition st; shots := shots st;
        currentHole := currentHole st + 1; roundId := roundId st;
        holeNotes :=
          if decide (notes = "") then holeNotes st
          else <[currentHole st := notes]> (holeNotes st);
        courseName := courseName st; savedCourses := savedCourses st;
        club_value := club_value st; shot_type_value := shot_type_value st;
        hole_notes_value := ""; hole_score_value := "";
        course_name_value := course_name_value st |},
     [fetch "/api/hole"
        (hole_body (roundId st) (currentHole st) score notes (shots st));
      alert (hole_complete (currentHole st) score)]).

(** [savedCourses] after [unshift] and the [pop] that follows it. *)
Definition remember (name : string) (saved : list string) : list string :=
  if decide (name ≠ "" ∧ name ∉ saved) then
    let l := name :: saved in
    if decide (10 < length l) then take (length l - 1) l else l
  else saved.

Definition saveCourseName (st : state) : state :=
  let name := trim env (course_name_value st) in
  {| currentPosition := currentPosition st; shots := shots st;
     currentHole := currentHole st; roundId := roundId st;
     holeNotes := holeNotes st; courseName := name;
     savedCourses := remember name (savedCourses st);
     club_value := club_value st; shot_type_value := shot_type_value st;
     hole_notes_value := hole_notes_value st;
     hole_score_value := hole_score_value st;
     course_name_value := course_name_value st |}.

(** [confirmed] is the answer to [confirm], [iso] the time the summary
    carries, [now] the time the next round takes its identifier from.  The
    body of the summary is built before the variables are reset. *)
Definition endRound (confirmed : bool) (iso : string) (now : Z)
    (st : state) : state * list effect :=
  if confirmed then
    let st1 := saveCourseName st in
    ({| currentPosition := currentPosition st1; shots := [];
        currentHole := 1; roundId := now; holeNotes := ∅; courseName := "";
        savedCourses := savedCourses st1;
        club_value := club_value st1; shot_type_value := shot_type_value st1;
        hole_notes_value := ""; hole_score_value := hole_score_value st1;
        course_name_value := "" |},
     [fetch "/api/round" (round_body st1 iso); alert round_complete])
  else (st, []).

(** The address of the course search. *)
Definition overpass_url : string := "https://overpass-api.de/api/interpreter".

(** The text of the template literal [query] for a position: the radius
    is the constant 10000, the coordinates are written as the script
    writes numbers. *)
Definition overpass_query (lat lon : Z) : string :=
  let q := String (Ascii.ascii_of_nat 34) EmptyString in
  let nl := String (Ascii.ascii_of_nat 10) EmptyString in
  let golf :=
    "[" +:+ q +:+ "leisure" +:+ q +:+ "=" +:+ q +:+ "golf_course" +:+ q +:+
    "](around:10000," +:+ number_text env lat +:+ "," +:+
    number_text env lon +:+ ");" in
  nl +:+
  "                    [out:json][timeout:25];" +:+ nl +:+
  "                    (" +:+ nl +:+
  "                        way" +:+ golf +:+ nl +:+
  "                        node" +:+ golf +:+ nl +:+
  "                        relation" +:+ golf +:+ nl +:+
  "                    );" +:+ nl +:+
  "                    out body;" +:+ nl +:+
  "                    >;" +:+ nl +:+
  "                    out skel qt;" +:+ nl +:+
  "                ".

(** The set [courses]: the names that are not empty, each once. *)
Definition found_courses_of (names : list (option string)) : list string :=
  remove_dups (filter (λ name, name ≠ "") (omap id names)).

(** [findNearbyCourses], with the answer the search gets.  It reads
    [currentPosition] and [savedCourses], fills the list of suggestions
    under the course field, and assigns none of the variables of the
    script.  The function waits for the answer; since it touches no
    variable before or after the wait, the answer is taken to arrive at
    once, and what other handlers do in between is not changed by it. *)
Definition findNearbyCourses (answer : overpass_answer) (st : state) :
    state * list effect :=
  match currentPosition st with
  | None => (st, [alert waiting_for_gps_location])
  | Some p =>
      (st,
       [fetch overpass_url
          (PyStr (overpass_query (coords_latitude p) (coords_longitude p)));
        alert
          match answer with
          | elements names =>
              let courses := found_courses_of names in
              if decide (0 < length courses)
              then found_courses (length courses)
              else no_courses_found
          | no_answer => could_not_search
          end])
  end.

(** What happens on the page: a position from [watchPosition], a form
    field set by the user, a button. *)
Inductive event :=
| gps (p : position)
| set_club (v : string)
| set_shot_type (v : string)
| set_hole_notes (v : string)
| set_hole_score (v : string)
| set_course_name (v : string)
| click_record (iso : string)
| click_finish
| click_end (confirmed : bool) (iso : string) (now : Z)
| click_find_courses (answer : overpass_answer).

Definition set_field (ev : event) (st : state) : state :=
  {| currentPosition :=
       match ev with gps p => Some p | _ => currentPosition st end;
     shots := shots st; currentHole := currentHole st; roundId := roundId st;
     holeNotes := holeNotes st; courseName := courseName st;
     savedCourses := savedCourses st;
     club_value := match ev with set_club v => v | _ => club_value st end;
     shot_type_value :=
       match ev with set_shot_type v => v | _ => shot_type_value st end;
     hole_notes_value :=
       match ev with set_hole_notes v => v | _ => hole_notes_value st end;
     hole_score_value :=
       match ev with set_hole_score v => v | _ => hole_score_value st end;
     course_name_value :=
       match ev with set_course_name v => v | _ => course_name_value st end |}.

Definition step (st : state) (ev : event) : state * list effect :=
  match ev with
  | click_record iso => recordShot iso st
  | click_finish => finishHole st
  | click_end confirmed iso now => endRound confirmed iso now st
  | click_find_courses answer => findNearbyCourses answer st
  | _ => (set_field ev st, [])
  end.

(** The state after a list of events, and everything issued on the way. *)
Fixpoint play (evs : list event) (st : state) : state * list effect :=
  match evs with
  | [] => (st, [])
  | ev :: evs =>
      let '(st1, out1) := step st ev in
      let '(st2, out2) := play evs st1 in
      (st2, out1 ++ out2)
  end.

End Script.

(** The requests among the effects that go to [path]. *)
Definition posts (path : string) (out : list effect) : list pyval :=
  omap (λ e, match e with
             | fetch p body => if decide (p = path) then Some body else None
             | alert _ => None
             end) out.

(** Shots are numbered from 1 within each hole, in the order of the list. *)
Definition numbered (l : list shot) : Prop :=
  ∀ h, shot_number <$> hole_shots h l =
       seqZ 1 (Z.of_nat (length (hole_shots h l))).

(** What the list of shots satisfies at any time of a session. *)
Definition shots_ok (st : state) : Prop :=
  numbered (shots st) ∧
  NoDup ((λ s, (hole s, shot_number s)) <$> shots st) ∧
  (1 ≤ currentHole st)%Z ∧
  Forall (λ s, 1 ≤ hole s ≤ currentHole st)%Z (shots st) ∧
  Forall (λ s, distance s = None ↔ shot_number s = 1%Z) (shots st).

(** A sample of the parameters for the examples: a distance function that
    is constant, numbers read as floats. *)
Definition js_sample : js :=
  {| calculateDistance := λ _ _ _ _, 0x406E000000000000%Z;
     json_number := PyFloat;
     trim := λ s, s;
     number_text := λ bits,
       if decide (bits = 0x4042400000000000)%Z then "36.5"
       else if decide (bits = 0xC05E79999999999A)%Z then "-121.9"
       else "0" |}.

Definition tee : position :=
  {| coords_latitude := 0x4042400000000000;
     coords_longitude := 0xC05E79999999999A;
     coords_accuracy := 0x4014000000000000 |}.

(** A page loaded at time 1001, and one hole played on it: a course
    search that finds one course under two elements, two shots and the
    score. *)
Definition loaded : state := load 1001 ["Pebble Creek"].

Definition one_hole : list event :=
  [gps tee;
   click_find_courses (elements [Some "Spyglass"; None; Some "Spyglass"]);
   set_course_name "Spyglass"; set_club "Driver";
   click_record "2024-05-01T09:00:00.000Z"; set_club "7 Iron";
   set_shot_type "Fairway"; click_record "2024-05-01T09:04:00.000Z";
   set_hole_score "4"; click_finish].

(** The effects of a whole round, each paired with the clocks of the
    server at its arrival. *)
Definition one_round_out : list (clock * effect) :=
  (λ e, (clk0, e))
    <$> (play js_sample
           (one_hole ++ [click_end true "2024-05-01T09:10:00.000Z" 2002])
           loaded).2.

End Client.

(** ** The page and the server together *)

(** The handler a request of the page reaches; Flask answers 404 on any
    other path. *)
Definition route (path : string) (body : pyval) : option api_call :=
  if decide (path = "/api/shot") then Some (POST_shot body)
  else if decide (path = "/api/hole") then Some (POST_hole body)
  else if decide (path = "/api/round") then Some (POST_round body)
  else None.

(** The database after the requests among the effects have arrived in the
    order they were issued, each at the clocks paired with it. *)
Fixpoint deliver (pg : pg_input) (out : list (clock * Client.effect))
    (d : db) : db :=
  match out with
  | [] => d
  | (clk, Client.fetch path body) :: out =>
      match route path body with
      | Some c => deliver pg out (handle pg clk c d).1
      | None => deliver pg out d
      end
  | (_, Client.alert _) :: out => deliver pg out d
  end.

(** * Properties *)

(** ** Lookups by primary key *)

Section Lookup.

Implicit Types (l : list Round.row) (r : Round.row) (id : Z) (d : db).

Lemma find_in_cons id r l :
  Sql.find_in id (r :: l) =
    if decide (Round.round_id r = id) then Some r else Sql.find_in id l.
Proof.
  unfold Sql.find_in. simpl. case_decide; [done|].
  by destruct (list_find _ l) as [[]|].
Qed.

Lemma find_in_Some id l r :
  Sql.find_in id l = Some r → r ∈ l ∧ Round.round_id r = id.
Proof.
  induction l as [|x l IH]; [done|].
  rewrite find_in_cons. case_decide.
  - intros [= <-]. split; [left|done].
  - intros [? ?]%IH. split; [by right|done].
Qed.

Lemma find_in_None id l :
  Sql.find_in id l = None ↔ id ∉ Round.round_id <$> l.
Proof.
  induction l as [|x l IH]; simpl.
  - split; [intros _; apply not_elem_of_nil|done].
  - rewrite find_in_cons, not_elem_of_cons.
    case_decide as Hx.
    + split; [done|]. intros [Hne _]. by destruct Hne.
    + rewrite IH. split; [intros ?; split; [congruence|done]|by intros [_ ?]].
Qed.

Lemma find_in_is_Some id l :
  is_Some (Sql.find_in id l) ↔ id ∈ Round.round_id <$> l.
Proof.
  rewrite <-not_eq_None_Some, find_in_None.
  split; [apply dec_stable|auto].
Qed.

Lemma find_in_app id l1 l2 :
  Sql.find_in id (l1 ++ l2) =
    match Sql.find_in id l1 with
    | Some r => Some r
    | None => Sql.find_in id l2
    end.
Proof.
  induction l1 as [|x l1 IH]; [done|].
  simpl. rewrite !find_in_cons. by case_decide.
Qed.

Lemma find_in_fmap (f : Round.row → Round.row) id l :
  (∀ r, Round.round_id (f r) = Round.round_id r) →
  Sql.find_in id (f <$> l) = f <$> Sql.find_in id l.
Proof.
  intros Hf. induction l as [|x l IH]; [done|].
  rewrite fmap_cons, !find_in_cons, Hf. by case_decide.
Qed.

Lemma find_round_eq id d : Sql.find_round id d = Sql.find_in id (rounds d).
Proof. done. Qed.

Lemma fmap_ids_preserved (f : Round.row → Round.row) l :
  (∀ r, Round.round_id (f r) = Round.round_id r) →
  Round.round_id <$> (f <$> l) = Round.round_id <$> l.
Proof.
  intros Hf. rewrite <-list_fmap_compose. apply list_fmap_ext.
  intros ? ? _. apply Hf.
Qed.

(** With a unique key, exactly one row carries a stored key. *)
Lemma one_row_per_key id l :
  NoDup (Round.round_id <$> l) → id ∈ Round.round_id <$> l →
  length (filter (λ r, Round.round_id r = id) l) = 1.
Proof.
  induction l as [|x l IH]; simpl.
  - by intros _ ?%elem_of_nil.
  - rewrite NoDup_cons, elem_of_cons, filter_cons. intros [Hx Hl] Hin.
    case_decide as Hid.
    + simpl. f_equal. destruct (filter _ l) as [|r l'] eqn:Hf; [done|].
      exfalso. assert (r ∈ filter (λ r, Round.round_id r = id) l) as Hr
        by (rewrite Hf; left).
      apply list_elem_of_filter in Hr as [Hrid Hr]. apply Hx.
      rewrite Hid, <-Hrid. by apply list_elem_of_fmap_2.
    + destruct Hin as [->|Hin]; [done|]. by apply IH.
Qed.

End Lookup.

(** ** The statements on [rounds] *)

Section Statements.

Implicit Types (r : Round.row) (id : Z) (d : db) (p : round_params).

(** The upsert, by the two NOT NULL columns and by the conflict. *)
Lemma upsert_round_unfold now p d :
  Sql.upsert_round now p d =
    match rp_round_id p, rp_date p with
    | None, _ => (d, Err (NotNullViolation "round_id"))
    | Some _, None => (d, Err (NotNullViolation "date"))
    | Some id, Some dt =>
        if decide (id ∈ Sql.round_ids d) then
          (Sql.set_rounds
             ((λ r, if decide (Round.round_id r = id)
                    then Sql.excluded dt p r else r) <$> rounds d) d, Ok ())
        else
          (Sql.set_rounds (rounds d ++ [Sql.new_round id dt now p]) d, Ok ())
    end.
Proof.
  unfold Sql.upsert_round. by destruct (rp_round_id p), (rp_date p).
Qed.

Lemma upsert_keeps_id dt p id r :
  Round.round_id
    (if decide (Round.round_id r = id) then Sql.excluded dt p r else r) =
  Round.round_id r.
Proof. by case_decide. Qed.

Lemma upsert_round_frame now p d :
  round_frame <$> rounds d `prefix_of`
  round_frame <$> rounds (Sql.upsert_round now p d).1.
Proof.
  rewrite upsert_round_unfold.
  destruct (rp_round_id p) as [id|], (rp_date p) as [dt|]; simpl; try done.
  case_decide; cbn [fst rounds Sql.set_rounds].
  - replace (round_frame <$> (_ <$> rounds d)) with (round_frame <$> rounds d);
      [done|].
    rewrite <-list_fmap_compose. apply list_fmap_ext.
    intros ? r _. simpl. by case_decide.
  - rewrite fmap_app. by apply prefix_app_r.
Qed.

Lemma upsert_round_other now p d :
  shots (Sql.upsert_round now p d).1 = shots d ∧
  holes (Sql.upsert_round now p d).1 = holes d ∧
  shots_shot_id_seq (Sql.upsert_round now p d).1 = shots_shot_id_seq d ∧
  holes_hole_id_seq (Sql.upsert_round now p d).1 = holes_hole_id_seq d.
Proof.
  rewrite upsert_round_unfold.
  destruct (rp_round_id p), (rp_date p); simpl; try done.
  by case_decide.
Qed.

(** The keys after an upsert: the same ones, or one more at the end. *)
Lemma upsert_round_ids now p d id dt :
  rp_round_id p = Some id → rp_date p = Some dt →
  Sql.round_ids (Sql.upsert_round now p d).1 =
    if decide (id ∈ Sql.round_ids d) then Sql.round_ids d
    else Sql.round_ids d ++ [id].
Proof.
  intros Hid Hdt. rewrite upsert_round_unfold, Hid, Hdt.
  case_decide; unfold Sql.round_ids; simpl.
  - apply fmap_ids_preserved. intros r. apply upsert_keeps_id.
  - by rewrite fmap_app.
Qed.

Lemma upsert_round_ids_incl now p d id :
  id ∈ Sql.round_ids d → id ∈ Sql.round_ids (Sql.upsert_round now p d).1.
Proof.
  intros Hin. rewrite upsert_round_unfold.
  destruct (rp_round_id p) as [id'|], (rp_date p) as [dt|]; simpl; try done.
  case_decide; unfold Sql.round_ids; simpl.
  - rewrite fmap_ids_preserved; [done|]. intros r. apply upsert_keeps_id.
  - rewrite fmap_app. apply elem_of_app. by left.
Qed.

Lemma upsert_round_pkey now p d :
  NoDup (Sql.round_ids d) → NoDup (Sql.round_ids (Sql.upsert_round now p d).1).
Proof.
  intros Hnd.
  destruct (rp_round_id p) as [id|] eqn:Hid, (rp_date p) as [dt|] eqn:Hdt;
    try (by rewrite upsert_round_unfold, Hid, ?Hdt).
  rewrite (upsert_round_ids _ _ _ id dt) by done. case_decide; [done|].
  apply NoDup_app. split_and!; [done| |apply NoDup_singleton].
  intros x Hx ->%list_elem_of_singleton. done.
Qed.

Lemma update_synced_ids id d :
  Sql.round_ids (Sql.update_synced id d) = Sql.round_ids d.
Proof.
  unfold Sql.round_ids. simpl. apply fmap_ids_preserved.
  intros r. by case_decide.
Qed.

End Statements.

(** ** POST /api/round *)

Section SaveRound.

Variable pg : pg_input.

Implicit Types (r : Round.row) (id : Z) (d : db) (data : pyval).

Lemma save_round_unfold clk d data :
  save_round pg clk d data =
    match round_request pg clk data with
    | Err e => (d, jsonify_500 e)
    | Ok p =>
        ((Sql.upsert_round (pg_now clk) p d).1,
         match (Sql.upsert_round (pg_now clk) p d).2 with
         | Ok _ => jsonify Success
         | Err e => jsonify_500 e
         end)
    end.
Proof.
  unfold save_round. destruct (round_request pg clk data) as [p|e]; [|done].
  by destruct (Sql.upsert_round (pg_now clk) p d) as [d' [[]|e]].
Qed.

Lemma save_round_frame_prefix clk d data :
  round_frame <$> rounds d `prefix_of`
  round_frame <$> rounds (save_round pg clk d data).1.
Proof.
  rewrite save_round_unfold. destruct (round_request pg clk data); [|done].
  apply upsert_round_frame.
Qed.

Lemma save_round_pkey clk d data :
  NoDup (Sql.round_ids d) → NoDup (Sql.round_ids (save_round pg clk d data).1).
Proof.
  rewrite save_round_unfold. destruct (round_request pg clk data); [|done].
  apply upsert_round_pkey.
Qed.

(** An accepted request on a key that is not stored appends one row. *)
Lemma save_round_insert clk d data p id dt :
  round_request pg clk data = Ok p →
  rp_round_id p = Some id → rp_date p = Some dt →
  Sql.find_round id d = None →
  save_round pg clk d data =
    (Sql.set_rounds (rounds d ++ [Sql.new_round id dt (pg_now clk) p]) d,
     jsonify Success).
Proof.
  intros Hp Hid Hdt Hnew%find_in_None.
  rewrite save_round_unfold, Hp, upsert_round_unfold, Hid, Hdt.
  by rewrite decide_False.
Qed.

(** An accepted request on a stored key rewrites the rows with that key. *)
Lemma save_round_update clk d data p id dt r :
  round_request pg clk data = Ok p →
  rp_round_id p = Some id → rp_date p = Some dt →
  Sql.find_round id d = Some r →
  save_round pg clk d data =
    (Sql.set_rounds
       ((λ r, if decide (Round.round_id r = id)
              then Sql.excluded dt p r else r) <$> rounds d) d,
     jsonify Success).
Proof.
  intros Hp Hid Hdt Hold.
  assert (id ∈ Sql.round_ids d) by (apply find_in_is_Some; eauto).
  rewrite save_round_unfold, Hp, upsert_round_unfold, Hid, Hdt.
  by rewrite decide_True.
Qed.

Lemma find_after_update id dt p d r id' :
  Sql.find_round id d = Some r →
  Sql.find_in id'
    ((λ r, if decide (Round.round_id r = id)
           then Sql.excluded dt p r else r) <$> rounds d) =
  if decide (id' = id) then Some (Sql.excluded dt p r)
  else Sql.find_round id' d.
Proof.
  intros Hold. rewrite find_in_fmap by (intros; apply upsert_keeps_id).
  rewrite find_round_eq in *. case_decide as Hid'.
  - subst id'. rewrite Hold. simpl.
    apply find_in_Some in Hold as [_ Hr]. by rewrite decide_True.
  - destruct (Sql.find_in id' (rounds d)) as [r'|] eqn:Hr'; [|done]. simpl.
    apply find_in_Some in Hr' as [_ Hr']. rewrite decide_False; congruence.
Qed.

(** C2. For every row of [rounds], at its position, [save_round] leaves
    [round_id], [synced_to_local] and [created_at] as they were, whatever
    the request holds. *)
Theorem save_round_keeps_sync_flag clk d data (i : nat) r :
  rounds d !! i = Some r →
  ∃ r', rounds (save_round pg clk d data).1 !! i = Some r' ∧
        Round.round_id r' = Round.round_id r ∧
        Round.synced_to_local r' = Round.synced_to_local r ∧
        Round.created_at r' = Round.created_at r.
Proof.
  intros Hi.
  assert ((round_frame <$> rounds d) !! i = Some (round_frame r)) as Hf
    by (by rewrite list_lookup_fmap, Hi).
  eapply prefix_lookup_Some in Hf; [|apply (save_round_frame_prefix clk d data)].
  apply list_lookup_fmap_Some_1 in Hf as (r' & Hfr & Hr').
  exists r'. split; [done|]. unfold round_frame in Hfr.
  by injection Hfr as -> -> ->.
Qed.

End SaveRound.

Section SaveRoundUpsert.

Variable pg : pg_input.

Implicit Types (r : Round.row) (id : Z) (d : db) (data : pyval).

(** The state after an accepted request, whichever branch is taken. *)
Lemma save_round_accepted clk d data p id dt :
  round_request pg clk data = Ok p →
  rp_round_id p = Some id → rp_date p = Some dt →
  (save_round pg clk d data).2 = jsonify Success ∧
  id ∈ Sql.round_ids (save_round pg clk d data).1.
Proof.
  intros Hp Hid Hdt.
  destruct (Sql.find_round id d) as [r|] eqn:Hfind.
  - rewrite (save_round_update pg clk d data p id dt r) by done.
    split; [done|]. unfold Sql.round_ids. simpl.
    rewrite fmap_ids_preserved by (intros; apply upsert_keeps_id).
    apply find_in_is_Some. rewrite <-find_round_eq, Hfind. eauto.
  - rewrite (save_round_insert pg clk d data p id dt) by done.
    split; [done|]. unfold Sql.round_ids. simpl.
    rewrite fmap_app. apply elem_of_app. right. simpl. left.
Qed.

(** A request that reaches the statement with a NULL key or a NULL date is
    refused, and nothing changes. *)
Lemma save_round_refused clk d data p :
  round_request pg clk data = Ok p →
  rp_round_id p = None ∨ rp_date p = None →
  ∃ col, save_round pg clk d data = (d, jsonify_500 (NotNullViolation col)).
Proof.
  intros Hp Hnull. rewrite save_round_unfold, Hp, upsert_round_unfold.
  destruct (rp_round_id p), (rp_date p), Hnull; try done; eauto.
Qed.

(** C1, as the code has it. For a request that reaches the statement with
    a round_id and a date that are not NULL: the answer is success; when
    the round_id is not stored, one row is appended to [rounds]; when it is
    stored, its row gets the course_name, total_holes, total_shots and date
    of the request, in place, and the number of rows and the other rows
    stay; a second such request for the same round_id leaves one row for
    it, with the values of the second request. *)
Theorem save_round_upsert clk d data p id dt :
  round_request pg clk data = Ok p →
  rp_round_id p = Some id → rp_date p = Some dt →
  let d' := (save_round pg clk d data).1 in
  (save_round pg clk d data).2 = jsonify Success ∧
  (Sql.find_round id d = None →
     rounds d' = rounds d ++ [Sql.new_round id dt (pg_now clk) p]) ∧
  (∀ r, Sql.find_round id d = Some r →
     Sql.find_round id d' = Some (Sql.excluded dt p r) ∧
     length (rounds d') = length (rounds d) ∧
     Sql.round_ids d' = Sql.round_ids d ∧
     ∀ id', id' ≠ id → Sql.find_round id' d' = Sql.find_round id' d) ∧
  (∀ clk2 data2 p2 dt2,
     round_request pg clk2 data2 = Ok p2 →
     rp_round_id p2 = Some id → rp_date p2 = Some dt2 →
     NoDup (Sql.round_ids d) →
     let d'' := (save_round pg clk2 d' data2).1 in
     length (rounds d'') = length (rounds d') ∧
     length (filter (λ r, Round.round_id r = id) (rounds d'')) = 1 ∧
     ∃ r2, Sql.find_round id d'' = Some r2 ∧
           Round.date r2 = dt2 ∧
           Round.course_name r2 = rp_course_name p2 ∧
           Round.total_holes r2 = rp_total_holes p2 ∧
           Round.total_shots r2 = rp_total_shots p2).
Proof.
  intros Hp Hid Hdt d'.
  destruct (save_round_accepted clk d data p id dt) as [Hok Hin]; try done.
  split_and!; [done| | |].
  - intros Hnew. unfold d'.
    by rewrite (save_round_insert pg clk d data p id dt).
  - intros r Hold. unfold d'.
    rewrite (save_round_update pg clk d data p id dt r) by done.
    cbn [fst]. split_and!.
    + rewrite find_round_eq. cbn [rounds Sql.set_rounds].
      rewrite (find_after_update id dt p d r id) by done.
      by rewrite decide_True.
    + cbn [rounds Sql.set_rounds]. by rewrite length_fmap.
    + unfold Sql.round_ids. cbn [rounds Sql.set_rounds].
      apply fmap_ids_preserved. intros; apply upsert_keeps_id.
    + intros id' Hne. rewrite find_round_eq. cbn [rounds Sql.set_rounds].
      rewrite (find_after_update id dt p d r id') by done.
      by rewrite decide_False.
  - intros clk2 data2 p2 dt2 Hp2 Hid2 Hdt2 Hnd d''.
    fold d' in Hin.
    assert (NoDup (Sql.round_ids d')) as Hnd' by by apply save_round_pkey.
    apply find_in_is_Some in Hin as [r1 Hr1].
    unfold d''.
    rewrite (save_round_update pg clk2 d' data2 p2 id dt2 r1) by done.
    cbn [fst rounds Sql.set_rounds]. split_and!.
    + by rewrite length_fmap.
    + apply one_row_per_key.
      * rewrite fmap_ids_preserved by (intros; apply upsert_keeps_id). done.
      * rewrite fmap_ids_preserved by (intros; apply upsert_keeps_id).
        apply find_in_is_Some. eauto.
    + exists (Sql.excluded dt2 p2 r1). split; [|done].
      rewrite find_round_eq. cbn [rounds Sql.set_rounds].
      rewrite (find_after_update id dt2 p2 d' r1 id) by done.
      by rewrite decide_True.
Qed.

End SaveRoundUpsert.

(** The round of the scenario is renamed by a second POST /api/round. *)
Lemma save_round_upsert_witness :
  (save_round pg_plain clk1 db_1001 round_1001_renamed).2 = jsonify Success ∧
  ∃ r, Sql.find_round 1001
         (save_round pg_plain clk1 db_1001 round_1001_renamed).1 = Some r ∧
       Round.course_name r = Some "Spyglass" ∧
       length (rounds (save_round pg_plain clk1 db_1001 round_1001_renamed).1)
         = 1.
Proof.
  edestruct (save_round_upsert pg_plain clk1 db_1001 round_1001_renamed)
    as (Hok & _ & Hupd & _); [vm_compute; reflexivity ..|].
  split; [exact Hok|].
  destruct (Hupd row_1001) as (Hfind & Hlen & _); [vm_compute; reflexivity|].
  eexists. split; [exact Hfind|]. split; [reflexivity|exact Hlen].
Defined.

(** C1 as stated fails: round 1001 is not stored, the request names it and
    carries [date: null]; the NOT NULL column refuses the row and [rounds]
    stays empty. *)
Lemma save_round_null_date_refused :
  Sql.find_round 1001 empty_db = None ∧
  save_round pg_plain clk0 empty_db round_null_date =
    (empty_db, jsonify_500 (NotNullViolation "date")) ∧
  length (rounds (save_round pg_plain clk0 empty_db round_null_date).1) = 0.
Proof. split_and!; vm_compute; reflexivity. Qed.

(** A value a column refuses has the same effect: 3000000000 holes do not
    fit an INTEGER. *)
Example save_round_out_of_range :
  save_round pg_plain clk0 empty_db
    (PyDict (list_to_map
       [("round_id", PyInt 1001); ("total_holes", PyInt 3000000000)])) =
  (empty_db, jsonify_500 (DataError "total_holes")).
Proof. vm_compute. reflexivity. Qed.

(** A synced round keeps its flag and its creation time when it is upserted
    again. *)
Lemma save_round_keeps_sync_flag_witness :
  ∃ r', rounds (save_round pg_plain clk1 db_1001_synced round_1001_renamed).1
          !! 0 = Some r' ∧
        Round.round_id r' = 1001%Z ∧
        Round.synced_to_local r' = Some true ∧
        Round.created_at r' = Some (pg_now clk0).
Proof.
  apply (save_round_keeps_sync_flag pg_plain clk1 db_1001_synced
           round_1001_renamed 0 (Sql.mark row_1001)).
  vm_compute. reflexivity.
Defined.

(** ** GET /api/export/unsynced *)

Section ExportUnsynced.








(** The handler hands the database back as it got it, whatever it
    answers. *)
Lemma export_unsynced_db pg d : (export_unsynced pg d).1 = d.
Proof. unfold export_unsynced. by destruct (_ ≫= _). Qed.

Lemma for_each_Ok {A B} (f : A → res B) (g : A → B) (l : list A) :
  Forall (λ x, f x = Ok (g x)) l → for_each f l = Ok (g <$> l).
Proof.
  induction 1 as [|x l Hx _ IH]; [done|].
  cbn [for_each]. rewrite Hx, IH. done.
Qed.

Lemma for_each_fmap {A B C} (f : A → res B) (g : A → C) (h : B → C)
    (l : list A) (l' : list B) :
  (∀ x y, f x = Ok y → h y = g x) →
  for_each f l = Ok l' → h <$> l' = g <$> l.
Proof.
  intros Hf. revert l'. induction l as [|x l IH]; intros l'; cbn [for_each].
  - by intros [= <-].
  - destruct (f x) as [y|] eqn:Hx; [|done].
    destruct (for_each f l) as [ys|]; [|done].
    intros [= <-]. rewrite !fmap_cons. f_equal; [by apply Hf|by apply IH].
Qed.

Lemma typecast_timestamp_in pg t :
  in_datetime t → typecast_timestamp pg t = Ok t.
Proof.
  unfold in_datetime, typecast_timestamp. intros [? ?].
  rewrite decide_False by lia. by rewrite decide_True.
Qed.

Lemma typecast_nullable_in pg t :
  null_or_in_datetime t → typecast_nullable pg t = Ok t.
Proof.
  destruct t as [t|]; [|done]. simpl. intros Ht.
  by rewrite typecast_timestamp_in.
Qed.

Lemma fetch_round_readable pg r : round_readable r → fetch_round pg r = Ok r.
Proof.
  intros [Hd Hc]. unfold fetch_round.
  rewrite typecast_timestamp_in, typecast_nullable_in by done.
  by destruct r.
Qed.

Lemma fetch_shot_readable pg s : shot_readable s → fetch_shot pg s = Ok s.
Proof.
  intros [Ht Hc]. unfold fetch_shot.
  rewrite !typecast_nullable_in by done. by destruct s.
Qed.

Lemma fetch_hole_readable pg h : hole_readable h → fetch_hole pg h = Ok h.
Proof.
  intros Hc. unfold fetch_hole, hole_readable in *.
  rewrite typecast_nullable_in by done. by destruct h.
Qed.

(** A fetch keeps the key and the flag of a round. *)
Lemma fetch_round_Ok pg r r' :
  fetch_round pg r = Ok r' →
  Round.round_id r' = Round.round_id r ∧
  Round.synced_to_local r' = Round.synced_to_local r.
Proof.
  unfold fetch_round.
  destruct (typecast_timestamp pg (Round.date r)); [|done].
  destruct (typecast_nullable pg (Round.created_at r)); [|done].
  by intros [= <-].
Qed.

Lemma export_round_Ok pg d r it :
  export_round pg d r = Ok it → ex_round it = r.
Proof.
  unfold export_round.
  destruct (fetchall (fetch_shot pg) _); [|done].
  destruct (fetchall (fetch_hole pg) _); [|done].
  by intros [= <-].
Qed.

Lemma elem_of_select_unsynced r d :
  r ∈ Sql.select_unsynced d ↔
  Round.synced_to_local r = Some false ∧ r ∈ rounds d.
Proof.
  unfold Sql.select_unsynced.
  by rewrite merge_sort_Permutation, list_elem_of_filter.
Qed.

(** When every row that is fetched can be read as it is stored, the answer
    is what the three queries select. *)
Lemma export_unsynced_readable pg d :
  export_readable d →
  export_unsynced pg d = (d, jsonify (SuccessData (export_rows d))).
Proof.
  intros (Hr & Hs & Hh). unfold export_unsynced, fetchall.
  rewrite (for_each_Ok (fetch_round pg) id), list_fmap_id.
  2:{ apply Forall_forall. intros r [Hflag Hin]%elem_of_select_unsynced.
      apply fetch_round_readable. rewrite Forall_forall in Hr. apply Hr.
      by apply list_elem_of_filter. }
  cbn [mbind res_bind].
  rewrite (for_each_Ok (export_round pg d)
             (λ round_data,
                {| ex_round := round_data;
                   ex_shots := Sql.select_shots (Round.round_id round_data) d;
                   ex_holes := Sql.select_holes (Round.round_id round_data) d |})).
  { done. }
  apply Forall_forall. intros r [Hflag Hin]%elem_of_select_unsynced.
  assert (Round.round_id r ∈ unsynced_ids d) as Hid.
  { unfold unsynced_ids. apply list_elem_of_fmap_2.
    by apply list_elem_of_filter. }
  unfold export_round, fetchall.
  rewrite (for_each_Ok (fetch_shot pg) id), list_fmap_id.
  2:{ apply Forall_forall. intros s Hsel. apply fetch_shot_readable.
      unfold Sql.select_shots in Hsel. rewrite merge_sort_Permutation in Hsel.
      apply list_elem_of_filter in Hsel as [Heq Hsin].
      rewrite Forall_forall in Hs. apply Hs; [done|]. simpl. by rewrite Heq. }
  cbn [mbind res_bind].
  rewrite (for_each_Ok (fetch_hole pg) id), list_fmap_id.
  2:{ apply Forall_forall. intros h Hsel. apply fetch_hole_readable.
      unfold Sql.select_holes in Hsel. rewrite merge_sort_Permutation in Hsel.
      apply list_elem_of_filter in Hsel as [Heq Hhin].
      rewrite Forall_forall in Hh. apply Hh; [done|]. simpl. by rewrite Heq. }
  done.
Qed.


End ExportUnsynced.



(** ** POST /api/mark-synced/<round_id> *)

Section MarkSynced.

Variable pg : pg_input.

Implicit Types (r : Round.row) (id : Z) (d : db).

Lemma set_rounds_same d : Sql.set_rounds (rounds d) d = d.
Proof. by destruct d. Qed.

Lemma update_synced_idem id d :
  Sql.update_synced id (Sql.update_synced id d) = Sql.update_synced id d.
Proof.
  unfold Sql.update_synced, Sql.set_rounds. simpl. f_equal.
  rewrite <-list_fmap_compose. apply list_fmap_ext. intros ? r _. simpl.
  destruct (decide (Round.round_id r = id)) as [Hr|Hr].
  - by rewrite decide_True.
  - by rewrite decide_False.
Qed.

Lemma update_synced_absent id d :
  Sql.find_round id d = None → Sql.update_synced id d = d.
Proof.
  intros Hnone%find_in_None. unfold Sql.update_synced.
  match goal with |- Sql.set_rounds ?l _ = _ =>
    replace l with (rounds d); [apply set_rounds_same|] end.
  rewrite <-(list_fmap_id (rounds d)) at 1.
  apply list_fmap_ext. intros ? r Hr. simpl. symmetry. apply decide_False.
  intros Hid. apply Hnone. rewrite <-Hid.
  apply list_elem_of_fmap_2. by eapply list_elem_of_lookup_2.
Qed.

Lemma update_synced_find id d id' :
  Sql.find_round id' (Sql.update_synced id d) =
    (λ r, if decide (Round.round_id r = id) then Sql.mark r else r)
      <$> Sql.find_round id' d.
Proof.
  rewrite !find_round_eq. unfold Sql.update_synced. simpl.
  apply find_in_fmap. intros r. by case_decide.
Qed.

(** A path segment that is not read as a bigint is answered with an error. *)
Lemma mark_synced_refused d (s : string) :
  int8in pg (PyStr s) = None →
  mark_synced pg d s = (d, jsonify_500 (DataError "round_id")).
Proof. unfold mark_synced. by intros ->. Qed.

(** C4. For a path segment that denotes a round identifier: the answer is
    success; a stored round with that identifier has its flag set; doing it
    again gives the same state and the same answer; when no round has the
    identifier the database is left as it was; no row is ever added. *)
Theorem mark_synced_spec d (s : string) id :
  int8in pg (PyStr s) = Some id →
  let d1 := (mark_synced pg d s).1 in
  (mark_synced pg d s).2 = jsonify Success ∧
  mark_synced pg d1 s = (d1, jsonify Success) ∧
  (∀ r, Sql.find_round id d = Some r →
     Sql.find_round id d1 = Some (Sql.mark r) ∧
     Round.synced_to_local (Sql.mark r) = Some true) ∧
  (Sql.find_round id d = None → d1 = d) ∧
  Sql.round_ids d1 = Sql.round_ids d.
Proof.
  intros Hs d1. unfold d1, mark_synced. rewrite Hs. cbn [fst snd].
  split_and!; [done| | | |].
  - by rewrite update_synced_idem.
  - intros r Hr. split; [|done]. rewrite update_synced_find, Hr. simpl.
    apply find_in_Some in Hr as [_ Hr]. by rewrite decide_True.
  - apply update_synced_absent.
  - apply update_synced_ids.
Qed.

End MarkSynced.

(** Round 1001 is marked; marking it again changes nothing. *)
Lemma mark_synced_spec_witness :
  (mark_synced pg_plain db_1001 "1001").2 = jsonify Success ∧
  mark_synced pg_plain db_1001_synced "1001" =
    (db_1001_synced, jsonify Success) ∧
  Sql.find_round 1001 db_1001_synced = Some (Sql.mark row_1001).
Proof.
  destruct (mark_synced_spec pg_plain db_1001 "1001" 1001)
    as (Hok & Hidem & Hset & _); [vm_compute; reflexivity|].
  split_and!; [exact Hok|exact Hidem|].
  apply (Hset row_1001). vm_compute. reflexivity.
Defined.

(** A round that is not stored: success, and the empty database stays
    empty. *)
Example mark_synced_unknown :
  mark_synced pg_plain empty_db "1001" = (empty_db, jsonify Success).
Proof. vm_compute. reflexivity. Qed.

(** ** Reading a request *)

Section Requests.

Variable pg : pg_input.

Implicit Types (m : gmap string pyval) (data : pyval).

Lemma bind_Ok {A B} (x : res A) (f : A → res B) b :
  x ≫= f = Ok b ↔ ∃ a, x = Ok a ∧ f a = Ok b.
Proof.
  destruct x as [a|e]; simpl.
  - split; [eauto|]. by intros (? & [= <-] & ?).
  - split; [done|]. by intros (? & ? & ?).
Qed.

Lemma getitem_Ok data k v :
  getitem data k = Ok v ↔ ∃ m, data = PyDict m ∧ m !! k = Some v.
Proof.
  destruct data as [| | | | | |m|]; simpl;
    try (split; [done|by intros (? & ? & ?)]).
  destruct (m !! k) as [v'|] eqn:Hk.
  - split; [intros [= <-]; eauto|]. intros (? & [= <-] & ?). congruence.
  - split; [done|]. intros (? & [= <-] & ?). congruence.
Qed.

(** What an accepted shot request is made of. *)
Lemma shot_request_Ok clk data p :
  shot_request pg clk data = Ok p ↔
  ∃ m v1 v2 v3 v4 v5 v6 v7,
    data = PyDict m ∧
    m !! "round_id" = Some v1 ∧ m !! "hole" = Some v2 ∧
    m !! "shot_number" = Some v3 ∧ m !! "club" = Some v4 ∧
    m !! "shot_type" = Some v5 ∧ m !! "latitude" = Some v6 ∧
    m !! "longitude" = Some v7 ∧
    to_column (int8in pg) "round_id" v1 = Ok (sp_round_id p) ∧
    to_column (int4in pg) "hole" v2 = Ok (sp_hole p) ∧
    to_column (int4in pg) "shot_number" v3 = Ok (sp_shot_number p) ∧
    to_column (varcharin pg 50) "club" v4 = Ok (sp_club p) ∧
    to_column (varcharin pg 50) "shot_type" v5 = Ok (sp_shot_type p) ∧
    to_column (float8in pg) "latitude" v6 = Ok (sp_latitude p) ∧
    to_column (float8in pg) "longitude" v7 = Ok (sp_longitude p) ∧
    to_column (float4in pg) "accuracy" (default PyNone (m !! "accuracy")) =
      Ok (sp_accuracy p) ∧
    to_column (int4in pg) "distance" (default PyNone (m !! "distance")) =
      Ok (sp_distance p) ∧
    to_timestamp pg "timestamp"
      (default (PyDatetime (py_now clk)) (m !! "timestamp")) =
      Ok (sp_timestamp p).
Proof.
  unfold shot_request, shot_tuple, shot_values. split.
  - intros H.
    repeat match type of H with
    | _ ≫= _ = Ok _ => apply bind_Ok in H as (? & ? & H)
    | Ok _ = Ok _ => injection H as H
    end.
    repeat match goal with
    | H : getitem _ _ = Ok _ |- _ =>
        apply getitem_Ok in H as (? & ? & H); simplify_eq
    | H : get (PyDict _) _ _ = Ok _ |- _ => injection H as H
    | H : _ ≫= _ = Ok _ |- _ => apply bind_Ok in H as (? & ? & H)
    | H : Ok _ = Ok _ |- _ => injection H as H
    end.
    subst. simpl in *. eexists _, _, _, _, _, _, _, _.
    split_and!; try done.
  - intros (m & v1 & v2 & v3 & v4 & v5 & v6 & v7 & -> & H1 & H2 & H3 & H4 &
            H5 & H6 & H7 & C1 & C2 & C3 & C4 & C5 & C6 & C7 & C8 & C9 & C10).
    simpl. rewrite H1, H2, H3, H4, H5, H6, H7. simpl.
    rewrite C1. simpl. rewrite C2. simpl. rewrite C3. simpl. rewrite C4. simpl.
    rewrite C5. simpl. rewrite C6. simpl. rewrite C7. simpl. rewrite C8. simpl.
    rewrite C9. simpl. rewrite C10. simpl. by destruct p.
Qed.

End Requests.

(** ** The statements on [shots] and [holes] *)

Section Inserts.

Implicit Types (d : db) (p : shot_params) (s : Shot.row) (id now : Z).

Lemma not_null_Ok {A} col (v : option A) a :
  Sql.not_null col v = Ok a ↔ v = Some a.
Proof. destruct v; simpl; split; congruence. Qed.

(** The row of an INSERT that passes the NOT NULL columns. *)
Lemma shot_row_Ok id now p s :
  Sql.shot_row id now p = Ok s ↔
  sp_round_id p = Some (Shot.round_id s) ∧ sp_hole p = Some (Shot.hole s) ∧
  sp_shot_number p = Some (Shot.shot_number s) ∧
  sp_club p = Some (Shot.club s) ∧ sp_shot_type p = Some (Shot.shot_type s) ∧
  sp_latitude p = Some (Shot.latitude s) ∧
  sp_longitude p = Some (Shot.longitude s) ∧
  s = {| Shot.shot_id := id; Shot.round_id := Shot.round_id s;
         Shot.hole := Shot.hole s; Shot.shot_number := Shot.shot_number s;
         Shot.club := Shot.club s; Shot.shot_type := Shot.shot_type s;
         Shot.latitude := Shot.latitude s; Shot.longitude := Shot.longitude s;
         Shot.accuracy := sp_accuracy p; Shot.distance := sp_distance p;
         Shot.elevation_change := None; Shot.wind_speed := None;
         Shot.wind_direction := None; Shot.timestamp := sp_timestamp p;
         Shot.created_at := Some now |}.
Proof.
  unfold Sql.shot_row. split.
  - intros H.
    repeat match type of H with
    | _ ≫= _ = Ok _ => apply bind_Ok in H as (? & ?%not_null_Ok & H)
    end.
    injection H as <-. by split_and!.
  - intros (-> & -> & -> & -> & -> & -> & -> & Hs). simpl. by rewrite Hs at 8.
Qed.

Lemma insert_shot_Ok now p d d' id :
  Sql.insert_shot now p d = (d', Ok id) ↔
  ∃ s, (shots_shot_id_seq d < Sql.SERIAL_MAX)%Z ∧
       id = (shots_shot_id_seq d + 1)%Z ∧
       Sql.shot_row id now p = Ok s ∧
       (id ∉ Sql.shot_ids d) ∧
       Shot.round_id s ∈ Sql.round_ids d ∧
       d' = Sql.add_shot s (Sql.set_shots_seq id d).
Proof.
  unfold Sql.insert_shot. split.
  - intros H. case_decide; [|done].
    destruct (Sql.shot_row _ now p) as [s|] eqn:Hs; [|done].
    repeat case_decide; try done. injection H as <- <-. eauto 10.
  - intros (s & Hseq & -> & Hs & Hpk & Hfk & ->).
    rewrite decide_True, Hs by done.
    by rewrite decide_False, decide_True.
Qed.

(** A failed INSERT leaves the three tables as they were. *)
Lemma insert_shot_Err now p d d' e :
  Sql.insert_shot now p d = (d', Err e) →
  rounds d' = rounds d ∧ shots d' = shots d ∧ holes d' = holes d ∧
  holes_hole_id_seq d' = holes_hole_id_seq d.
Proof.
  unfold Sql.insert_shot. intros H.
  repeat (case_decide || destruct (Sql.shot_row _ now p)); by simplify_eq.
Qed.

Lemma insert_shot_rounds now p d :
  rounds (Sql.insert_shot now p d).1 = rounds d ∧
  holes (Sql.insert_shot now p d).1 = holes d ∧
  holes_hole_id_seq (Sql.insert_shot now p d).1 = holes_hole_id_seq d.
Proof.
  unfold Sql.insert_shot.
  repeat (case_decide || destruct (Sql.shot_row _ now p)); done.
Qed.

Lemma hole_row_round_id id now (p : hole_params) h :
  Sql.hole_row id now p = Ok h → hp_round_id p = Some (Hole.round_id h).
Proof.
  unfold Sql.hole_row. intros H.
  repeat match type of H with
  | _ ≫= _ = Ok _ => apply bind_Ok in H as (? & ?%not_null_Ok & H)
  end.
  by injection H as <-.
Qed.

Lemma insert_hole_Ok_round now (p : hole_params) d d' u :
  Sql.insert_hole now p d = (d', Ok u) →
  ∃ rid, hp_round_id p = Some rid ∧ rid ∈ Sql.round_ids d.
Proof.
  unfold Sql.insert_hole. intros H. case_decide; [|done].
  destruct (Sql.hole_row _ now p) as [h|] eqn:Hh; [|done].
  repeat case_decide; try done.
  apply hole_row_round_id in Hh. eauto.
Qed.

Lemma insert_hole_rounds now (p : hole_params) d :
  rounds (Sql.insert_hole now p d).1 = rounds d ∧
  shots (Sql.insert_hole now p d).1 = shots d ∧
  shots_shot_id_seq (Sql.insert_hole now p d).1 = shots_shot_id_seq d.
Proof.
  unfold Sql.insert_hole.
  repeat (case_decide || destruct (Sql.hole_row _ now p)); done.
Qed.

Lemma insert_hole_Err now (p : hole_params) d d' e :
  Sql.insert_hole now p d = (d', Err e) → holes d' = holes d.
Proof.
  unfold Sql.insert_hole. intros H.
  repeat (case_decide || destruct (Sql.hole_row _ now p)); by simplify_eq.
Qed.

End Inserts.

(** ** POST /api/shot and POST /api/hole *)

Section SaveShot.

Variable pg : pg_input.

Implicit Types (d : db) (data : pyval) (m : gmap string pyval) (id : Z).

Lemma save_shot_unfold clk d data :
  save_shot pg clk d data =
    match shot_request pg clk data with
    | Err e => (d, jsonify_500 e)
    | Ok p =>
        ((Sql.insert_shot (pg_now clk) p d).1,
         match (Sql.insert_shot (pg_now clk) p d).2 with
         | Ok shot_id => jsonify (SuccessShot shot_id)
         | Err e => jsonify_500 e
         end)
    end.
Proof.
  unfold save_shot. destruct (shot_request pg clk data) as [p|e]; [|done].
  by destruct (Sql.insert_shot (pg_now clk) p d) as [d' [id|e]].
Qed.

Lemma save_hole_unfold clk d data :
  save_hole pg clk d data =
    match hole_request pg data with
    | Err e => (d, jsonify_500 e)
    | Ok p =>
        ((Sql.insert_hole (pg_now clk) p d).1,
         match (Sql.insert_hole (pg_now clk) p d).2 with
         | Ok _ => jsonify Success
         | Err e => jsonify_500 e
         end)
    end.
Proof.
  unfold save_hole. destruct (hole_request pg data) as [p|e]; [|done].
  by destruct (Sql.insert_hole (pg_now clk) p d) as [d' [[]|e]].
Qed.

(** The answer carries a shot identifier exactly when the request was read
    and the INSERT went through. *)
Lemma save_shot_Ok clk d data id :
  (save_shot pg clk d data).2 = jsonify (SuccessShot id) ↔
  ∃ p, shot_request pg clk data = Ok p ∧
       (Sql.insert_shot (pg_now clk) p d).2 = Ok id.
Proof.
  rewrite save_shot_unfold.
  destruct (shot_request pg clk data) as [p|e].
  - destruct (Sql.insert_shot (pg_now clk) p d) as [d' [id'|e]] eqn:Hins;
      cbn [fst snd].
    + split.
      * intros [= ->]. exists p. by rewrite Hins.
      * intros (? & [= <-] & Hid). rewrite Hins in Hid. by injection Hid as ->.
    + split; [done|]. intros (? & [= <-] & Hid). by rewrite Hins in Hid.
  - split; [done|]. by intros (? & ? & ?).
Qed.

(** Neither handler writes to [rounds]. *)
Lemma save_shot_rounds clk d data :
  rounds (save_shot pg clk d data).1 = rounds d ∧
  holes (save_shot pg clk d data).1 = holes d.
Proof.
  rewrite save_shot_unfold. destruct (shot_request pg clk data); [|done].
  simpl. split; apply insert_shot_rounds.
Qed.

Lemma save_hole_rounds clk d data :
  rounds (save_hole pg clk d data).1 = rounds d ∧
  shots (save_hole pg clk d data).1 = shots d.
Proof.
  rewrite save_hole_unfold. destruct (hole_request pg data); [|done].
  simpl. split; apply insert_hole_rounds.
Qed.

Lemma to_column_round_id data v x :
  getitem data "round_id" = Ok v →
  to_column (int8in pg) "round_id" v = Ok x →
  x = request_round_id pg data.
Proof.
  unfold request_round_id, to_column. intros -> H.
  destruct v; try (destruct (int8in pg _); by simplify_eq).
  by simplify_eq.
Qed.

Lemma shot_request_round_id clk data p :
  shot_request pg clk data = Ok p →
  sp_round_id p = request_round_id pg data.
Proof.
  intros (m & v1 & ? & ? & ? & ? & ? & ? & -> & Hv1 & _ & _ & _ & _ & _ & _ &
          Hc & _)%shot_request_Ok.
  eapply to_column_round_id; [|done]. simpl. by rewrite Hv1.
Qed.

Lemma hole_request_round_id data p :
  hole_request pg data = Ok p →
  hp_round_id p = request_round_id pg data.
Proof.
  unfold hole_request, hole_tuple, hole_values. intros H.
  repeat match goal with
  | H : _ ≫= _ = Ok _ |- _ => apply bind_Ok in H as (? & ? & H)
  | H : Ok _ = Ok _ |- _ => injection H as H
  end.
  subst. simpl in *. by eapply to_column_round_id.
Qed.

(** C5, as the code has it. A shot or a hole that names a round which is
    not stored is answered with an error, and no round, shot or hole row is
    written: the round has to be stored first. *)
Theorem shot_needs_stored_round clk d data id :
  request_round_id pg data = Some id →
  id ∉ Sql.round_ids d →
  (∃ e, (save_shot pg clk d data).2 = jsonify_500 e) ∧
  rounds (save_shot pg clk d data).1 = rounds d ∧
  shots (save_shot pg clk d data).1 = shots d ∧
  holes (save_shot pg clk d data).1 = holes d ∧
  (∃ e, (save_hole pg clk d data).2 = jsonify_500 e) ∧
  rounds (save_hole pg clk d data).1 = rounds d ∧
  shots (save_hole pg clk d data).1 = shots d ∧
  holes (save_hole pg clk d data).1 = holes d.
Proof.
  intros Hid Hnew.
  destruct (save_shot_rounds clk d data) as [Hr Hh].
  destruct (save_hole_rounds clk d data) as [Hr' Hs'].
  assert ((∃ e, (save_shot pg clk d data).2 = jsonify_500 e) ∧
          shots (save_shot pg clk d data).1 = shots d) as [? ?].
  { rewrite save_shot_unfold.
    destruct (shot_request pg clk data) as [p|e] eqn:Hp; [|by eauto].
    destruct (Sql.insert_shot (pg_now clk) p d) as [d' [id'|e]] eqn:Hins.
    - apply insert_shot_Ok in Hins as (s & _ & _ & Hs & _ & Hfk & _).
      apply shot_row_Ok in Hs as (Hrid & _).
      apply shot_request_round_id in Hp. congruence.
    - simpl. split; [eauto|]. by apply insert_shot_Err in Hins as (_ & ? & _). }
  assert ((∃ e, (save_hole pg clk d data).2 = jsonify_500 e) ∧
          holes (save_hole pg clk d data).1 = holes d) as [? ?].
  { rewrite save_hole_unfold.
    destruct (hole_request pg data) as [p|e] eqn:Hp; [|by eauto].
    destruct (Sql.insert_hole (pg_now clk) p d) as [d' [u|e]] eqn:Hins.
    - apply insert_hole_Ok_round in Hins as (rid & Hrid & Hfk).
      apply hole_request_round_id in Hp. congruence.
    - simpl. split; [eauto|]. by apply insert_hole_Err in Hins. }
  by split_and!.
Qed.

End SaveShot.

(** The first shot of round 1001 is refused while the round is not stored. *)
Lemma shot_needs_stored_round_witness :
  (∃ e, (save_shot pg_plain clk0 empty_db shot_1001).2 = jsonify_500 e) ∧
  rounds (save_shot pg_plain clk0 empty_db shot_1001).1 = [] ∧
  shots (save_shot pg_plain clk0 empty_db shot_1001).1 = [].
Proof.
  destruct (shot_needs_stored_round pg_plain clk0 empty_db shot_1001 1001)
    as (He & Hr & Hs & _); [vm_compute; reflexivity|apply not_elem_of_nil|].
  by split_and!.
Defined.

(** C5 as stated fails: no round is stored, a complete shot for round 1001
    is posted; the foreign key refuses it, and neither a placeholder round
    nor the shot is written.  The same holds for a hole. *)
Lemma save_shot_without_round_refused :
  Sql.find_round 1001 empty_db = None ∧
  (save_shot pg_plain clk0 empty_db shot_1001).2 =
    jsonify_500 (ForeignKeyViolation "shots_round_id_fkey") ∧
  rounds (save_shot pg_plain clk0 empty_db shot_1001).1 = [] ∧
  shots (save_shot pg_plain clk0 empty_db shot_1001).1 = [] ∧
  (save_hole pg_plain clk0 empty_db hole_1001).2 =
    jsonify_500 (ForeignKeyViolation "holes_round_id_fkey") ∧
  rounds (save_hole pg_plain clk0 empty_db hole_1001).1 = [] ∧
  holes (save_hole pg_plain clk0 empty_db hole_1001).1 = [].
Proof. split_and!; vm_compute; reflexivity. Qed.

(** Membership in one of the two lists of field names. *)
Ltac in_list :=
  unfold shot_required, shot_optional;
  repeat first [apply list_elem_of_here | apply list_elem_of_further].

Section ShotFields.

Variable pg : pg_input.

Implicit Types (d : db) (data : pyval) (m : gmap string pyval) (id : Z).

(** The first required key that is missing raises the [KeyError]. *)
Lemma shot_tuple_missing clk m k :
  k ∈ shot_required → m !! k = None →
  ∃ k', k' ∈ shot_required ∧ m !! k' = None ∧
        shot_tuple clk (PyDict m) = Err (KeyError k').
Proof.
  intros Hk Hnone. unfold shot_tuple, getitem.
  destruct (m !! "round_id") eqn:E1;
    [|exists "round_id"; split_and!; [in_list|done|done]].
  destruct (m !! "hole") eqn:E2;
    [|exists "hole"; split_and!; [in_list|done|done]].
  destruct (m !! "shot_number") eqn:E3;
    [|exists "shot_number"; split_and!; [in_list|done|done]].
  destruct (m !! "club") eqn:E4;
    [|exists "club"; split_and!; [in_list|done|done]].
  destruct (m !! "shot_type") eqn:E5;
    [|exists "shot_type"; split_and!; [in_list|done|done]].
  destruct (m !! "latitude") eqn:E6;
    [|exists "latitude"; split_and!; [in_list|done|done]].
  destruct (m !! "longitude") eqn:E7;
    [|exists "longitude"; split_and!; [in_list|done|done]].
  exfalso. unfold shot_required in Hk.
  repeat (apply elem_of_cons in Hk as [->|Hk]; [congruence|]).
  by apply elem_of_nil in Hk.
Qed.

Lemma shot_tuple_present clk m :
  (∀ k, k ∈ shot_required → is_Some (m !! k)) →
  ∃ a, shot_tuple clk (PyDict m) = Ok a.
Proof.
  intros Hreq. unfold shot_tuple, getitem.
  destruct (Hreq "round_id") as [? ->]; [in_list|].
  destruct (Hreq "hole") as [? ->]; [in_list|].
  destruct (Hreq "shot_number") as [? ->]; [in_list|].
  destruct (Hreq "club") as [? ->]; [in_list|].
  destruct (Hreq "shot_type") as [? ->]; [in_list|].
  destruct (Hreq "latitude") as [? ->]; [in_list|].
  destruct (Hreq "longitude") as [? ->]; [in_list|].
  eexists. reflexivity.
Qed.

(** Dropping an optional key leaves a request that is still accepted, with
    the same values in the NOT NULL columns. *)
Lemma shot_request_delete clk m k p :
  k ∈ shot_optional →
  shot_request pg clk (PyDict m) = Ok p →
  ∃ p', shot_request pg clk (PyDict (delete k m)) = Ok p' ∧ same_required p p'.
Proof.
  intros Hk (m' & v1 & v2 & v3 & v4 & v5 & v6 & v7 & [= <-] & H1 & H2 & H3 &
             H4 & H5 & H6 & H7 & C1 & C2 & C3 & C4 & C5 & C6 & C7 & C8 & C9 &
             C10)%shot_request_Ok.
  unfold shot_optional in Hk.
  assert (∀ acc dist ts,
    to_column (float4in pg) "accuracy"
      (default PyNone (delete k m !! "accuracy")) = Ok acc →
    to_column (int4in pg) "distance"
      (default PyNone (delete k m !! "distance")) = Ok dist →
    to_timestamp pg "timestamp"
      (default (PyDatetime (py_now clk)) (delete k m !! "timestamp")) = Ok ts →
    k ≠ "round_id" → k ≠ "hole" → k ≠ "shot_number" → k ≠ "club" →
    k ≠ "shot_type" → k ≠ "latitude" → k ≠ "longitude" →
    ∃ p', shot_request pg clk (PyDict (delete k m)) = Ok p' ∧
          same_required p p') as Hbuild.
  { intros acc dist ts Hacc Hdist Hts ? ? ? ? ? ? ?.
    exists {| sp_round_id := sp_round_id p; sp_hole := sp_hole p;
              sp_shot_number := sp_shot_number p; sp_club := sp_club p;
              sp_shot_type := sp_shot_type p; sp_latitude := sp_latitude p;
              sp_longitude := sp_longitude p; sp_accuracy := acc;
              sp_distance := dist; sp_timestamp := ts |}.
    split; [|done]. apply shot_request_Ok.
    exists (delete k m), v1, v2, v3, v4, v5, v6, v7.
    rewrite !lookup_delete_ne by done. by split_and!. }
  repeat (apply elem_of_cons in Hk as [->|Hk]);
    [| | |by apply elem_of_nil in Hk].
  - eapply Hbuild; rewrite ?lookup_delete_eq, ?lookup_delete_ne by done;
      done.
  - eapply Hbuild; rewrite ?lookup_delete_eq, ?lookup_delete_ne by done;
      done.
  - eapply Hbuild; rewrite ?lookup_delete_eq, ?lookup_delete_ne by done;
      done.
Qed.

(** Whether an INSERT into [shots] goes through, and the identifier it
    returns, depends on the NOT NULL columns only. *)
Lemma insert_shot_same_required now p p' d id :
  same_required p p' →
  (Sql.insert_shot now p d).2 = Ok id →
  (Sql.insert_shot now p' d).2 = Ok id.
Proof.
  intros (E1 & E2 & E3 & E4 & E5 & E6 & E7) Hins.
  destruct (Sql.insert_shot now p d) as [d1 r] eqn:Hp. simpl in Hins. subst r.
  apply insert_shot_Ok in Hp as (s & Hseq & -> & Hs & Hpk & Hfk & _).
  apply shot_row_Ok in Hs as (R1 & R2 & R3 & R4 & R5 & R6 & R7 & _).
  erewrite (proj2 (insert_shot_Ok now p' d _ _)); [done|].
  eexists {| Shot.shot_id := _ |}. split_and!; try done.
  apply shot_row_Ok. simpl. rewrite E1, E2, E3, E4, E5, E6, E7.
  split_and!; done.
Qed.

(** C6. A dict without one of round_id, hole, shot_number, club, shot_type,
    latitude, longitude is answered with status 500 and an error body, and
    the database is left as it was.  With the seven keys present the tuple
    of the INSERT is built whatever else is there, and a request that is
    accepted is still accepted, under the same identifier, once accuracy,
    distance or timestamp is dropped from it. *)
Theorem save_shot_required_fields clk d m :
  (∀ k, k ∈ shot_required → m !! k = None →
     ∃ k', k' ∈ shot_required ∧ m !! k' = None ∧
           save_shot pg clk d (PyDict m) = (d, jsonify_500 (KeyError k')) ∧
           status (jsonify_500 (KeyError k')) = 500%Z) ∧
  ((∀ k, k ∈ shot_required → is_Some (m !! k)) →
     ∃ a, shot_tuple clk (PyDict m) = Ok a) ∧
  (∀ k id, k ∈ shot_optional →
     (save_shot pg clk d (PyDict m)).2 = jsonify (SuccessShot id) →
     (save_shot pg clk d (PyDict (delete k m))).2 = jsonify (SuccessShot id)).
Proof.
  split_and!.
  - intros k Hk Hnone.
    destruct (shot_tuple_missing clk m k Hk Hnone) as (k' & ? & ? & Hk').
    exists k'. split_and!; try done.
    unfold save_shot, shot_request. by rewrite Hk'.
  - apply shot_tuple_present.
  - intros k id Hk (p & Hp & Hins)%save_shot_Ok.
    destruct (shot_request_delete clk m k p Hk Hp) as (p' & Hp' & Hsame).
    apply save_shot_Ok. exists p'. split; [done|].
    by eapply insert_shot_same_required.
Qed.

End ShotFields.

Section ShotTwice.

Variable pg : pg_input.

Implicit Types (d : db) (data : pyval) (m : gmap string pyval) (id : Z).

(** The same request read at another time: only a timestamp that was left
    out can come out differently. *)
Lemma shot_request_clock clk clk' data p :
  shot_request pg clk data = Ok p →
  ∃ p', shot_request pg clk' data = Ok p' ∧ same_required p p' ∧
        sp_accuracy p' = sp_accuracy p ∧ sp_distance p' = sp_distance p ∧
        sp_timestamp p' =
          match data with
          | PyDict m =>
              match m !! "timestamp" with
              | Some _ => sp_timestamp p
              | None => Some (py_now clk')
              end
          | _ => sp_timestamp p
          end.
Proof.
  intros (m & v1 & v2 & v3 & v4 & v5 & v6 & v7 & -> & H1 & H2 & H3 &
          H4 & H5 & H6 & H7 & C1 & C2 & C3 & C4 & C5 & C6 & C7 & C8 & C9 &
          C10)%shot_request_Ok.
  exists {| sp_round_id := sp_round_id p; sp_hole := sp_hole p;
            sp_shot_number := sp_shot_number p; sp_club := sp_club p;
            sp_shot_type := sp_shot_type p; sp_latitude := sp_latitude p;
            sp_longitude := sp_longitude p; sp_accuracy := sp_accuracy p;
            sp_distance := sp_distance p;
            sp_timestamp :=
              match m !! "timestamp" with
              | Some _ => sp_timestamp p
              | None => Some (py_now clk')
              end |}.
  split_and!; try done.
  apply shot_request_Ok. exists m, v1, v2, v3, v4, v5, v6, v7.
  split_and!; try done. simpl. by destruct (m !! "timestamp").
Qed.

(** C7. A shot whose NOT NULL columns all have a value and whose round is
    stored, sent twice to a database with two free identifiers: both
    requests are answered with success, the identifiers are the next two
    of the sequence, and two rows with the same values are appended. *)
Theorem save_shot_twice clk1 clk2 d data p s1 :
  shot_request pg clk1 data = Ok p →
  Sql.shot_row (shots_shot_id_seq d + 1) (pg_now clk1) p = Ok s1 →
  Shot.round_id s1 ∈ Sql.round_ids d →
  Forall (λ id, id ≤ shots_shot_id_seq d)%Z (Sql.shot_ids d) →
  (shots_shot_id_seq d + 2 ≤ Sql.SERIAL_MAX)%Z →
  let d1 := (save_shot pg clk1 d data).1 in
  let d2 := (save_shot pg clk2 d1 data).1 in
  ∃ s2,
    (save_shot pg clk1 d data).2 =
      jsonify (SuccessShot (shots_shot_id_seq d + 1)) ∧
    (save_shot pg clk2 d1 data).2 =
      jsonify (SuccessShot (shots_shot_id_seq d + 2)) ∧
    shots d2 = shots d ++ [s1; s2] ∧
    Shot.shot_id s1 = (shots_shot_id_seq d + 1)%Z ∧
    Shot.shot_id s2 = (shots_shot_id_seq d + 2)%Z ∧
    Shot.shot_id s1 ≠ Shot.shot_id s2 ∧
    Shot.round_id s2 = Shot.round_id s1 ∧
    Shot.hole s2 = Shot.hole s1 ∧
    Shot.shot_number s2 = Shot.shot_number s1 ∧
    Shot.club s2 = Shot.club s1 ∧
    Shot.shot_type s2 = Shot.shot_type s1 ∧
    Shot.latitude s2 = Shot.latitude s1 ∧
    Shot.longitude s2 = Shot.longitude s1 ∧
    Shot.accuracy s2 = Shot.accuracy s1 ∧
    Shot.distance s2 = Shot.distance s1.
Proof.
  intros Hp Hs1 Hfk Hfresh Hcap d1 d2.
  set (n := shots_shot_id_seq d) in *.
  assert (Sql.insert_shot (pg_now clk1) p d =
            (Sql.add_shot s1 (Sql.set_shots_seq (n + 1) d), Ok (n + 1)%Z))
    as Hins1.
  { apply insert_shot_Ok. exists s1. split_and!; try done; [lia|].
    intros Hin. rewrite Forall_forall in Hfresh.
    apply Hfresh in Hin. lia. }
  assert (save_shot pg clk1 d data =
            (Sql.add_shot s1 (Sql.set_shots_seq (n + 1) d),
             jsonify (SuccessShot (n + 1)))) as Hsave1.
  { by rewrite save_shot_unfold, Hp, Hins1. }
  assert (d1 = Sql.add_shot s1 (Sql.set_shots_seq (n + 1) d)) as Hd1
    by (unfold d1; by rewrite Hsave1).
  destruct (shot_request_clock clk1 clk2 data p Hp)
    as (p2 & Hp2 & (E1 & E2 & E3 & E4 & E5 & E6 & E7) & Eacc & Edist & _).
  pose proof Hs1 as (R1 & R2 & R3 & R4 & R5 & R6 & R7 & Hrec)%shot_row_Ok.
  set (s2 := {| Shot.shot_id := n + 2; Shot.round_id := Shot.round_id s1;
                Shot.hole := Shot.hole s1;
                Shot.shot_number := Shot.shot_number s1;
                Shot.club := Shot.club s1; Shot.shot_type := Shot.shot_type s1;
                Shot.latitude := Shot.latitude s1;
                Shot.longitude := Shot.longitude s1;
                Shot.accuracy := sp_accuracy p2;
                Shot.distance := sp_distance p2;
                Shot.elevation_change := None; Shot.wind_speed := None;
                Shot.wind_direction := None;
                Shot.timestamp := sp_timestamp p2;
                Shot.created_at := Some (pg_now clk2) |}).
  assert (Sql.insert_shot (pg_now clk2) p2 d1 =
            (Sql.add_shot s2 (Sql.set_shots_seq (n + 2) d1), Ok (n + 2)%Z))
    as Hins2.
  { apply insert_shot_Ok. exists s2. rewrite Hd1. simpl.
    replace (n + 1 + 1)%Z with (n + 2)%Z by lia.
    split_and!; try done; [lia| |].
    - apply shot_row_Ok. simpl. rewrite E1, E2, E3, E4, E5, E6, E7.
      by split_and!.
    - unfold Sql.shot_ids. simpl. rewrite fmap_app, elem_of_app.
      intros [Hin|Hin].
      + rewrite Forall_forall in Hfresh. apply Hfresh in Hin. lia.
      + apply list_elem_of_singleton in Hin. rewrite Hrec in Hin.
        simpl in Hin. lia. }
  assert (save_shot pg clk2 d1 data =
            (Sql.add_shot s2 (Sql.set_shots_seq (n + 2) d1),
             jsonify (SuccessShot (n + 2)))) as Hsave2.
  { by rewrite save_shot_unfold, Hp2, Hins2. }
  exists s2. rewrite Hsave1. unfold d2. rewrite Hsave2.
  assert (Shot.shot_id s1 = (n + 1)%Z) as Hid1 by (by rewrite Hrec).
  split_and!; try done.
  - rewrite Hd1. simpl. by rewrite <-app_assoc.
  - rewrite Hid1. simpl. lia.
  - simpl. rewrite Eacc. by rewrite Hrec.
  - simpl. rewrite Edist. by rewrite Hrec.
Qed.

(** C9. A request with [timestamp: null] never stores anything but NULL in
    the timestamp of the shot, and when it is accepted it stores NULL.  A
    request that carries the key gets the same result whatever the
    application clock shows; one that does not carry it stores the
    application clock. *)
Theorem save_shot_timestamp clk d m :
  (m !! "timestamp" = Some PyNone →
     (shots (save_shot pg clk d (PyDict m)).1 = shots d ∨
      ∃ s, shots (save_shot pg clk d (PyDict m)).1 = shots d ++ [s] ∧
           Shot.timestamp s = None) ∧
     ∀ id, (save_shot pg clk d (PyDict m)).2 = jsonify (SuccessShot id) →
       ∃ s, shots (save_shot pg clk d (PyDict m)).1 = shots d ++ [s] ∧
            Shot.shot_id s = id ∧ Shot.timestamp s = None) ∧
  (is_Some (m !! "timestamp") →
     ∀ clk', pg_now clk' = pg_now clk →
       save_shot pg clk' d (PyDict m) = save_shot pg clk d (PyDict m)) ∧
  (m !! "timestamp" = None →
     ∀ id, (save_shot pg clk d (PyDict m)).2 = jsonify (SuccessShot id) →
       ∃ s, shots (save_shot pg clk d (PyDict m)).1 = shots d ++ [s] ∧
            Shot.shot_id s = id ∧ Shot.timestamp s = Some (py_now clk)).
Proof.
  assert (∀ ts, (∀ p, shot_request pg clk (PyDict m) = Ok p →
                      sp_timestamp p = ts) →
    ∀ id, (save_shot pg clk d (PyDict m)).2 = jsonify (SuccessShot id) →
      ∃ s, shots (save_shot pg clk d (PyDict m)).1 = shots d ++ [s] ∧
           Shot.shot_id s = id ∧ Shot.timestamp s = ts) as Hstored.
  { intros ts Hts id (p & Hp & Hins)%save_shot_Ok.
    rewrite save_shot_unfold, Hp. cbn [fst].
    destruct (Sql.insert_shot (pg_now clk) p d) as [d' r] eqn:Hi.
    simpl in Hins. subst r.
    apply insert_shot_Ok in Hi as (s & _ & _ & Hs & _ & _ & ->).
    exists s. split; [done|].
    apply shot_row_Ok in Hs as (_ & _ & _ & _ & _ & _ & _ & ->). simpl.
    split; [done|]. by apply Hts. }
  assert (∀ v, m !! "timestamp" = Some v →
            ∀ p, shot_request pg clk (PyDict m) = Ok p →
                 to_timestamp pg "timestamp" v = Ok (sp_timestamp p)) as Hgiven.
  { intros v Hv p (m' & ? & ? & ? & ? & ? & ? & ? & [= <-] & _ & _ & _ & _ &
                   _ & _ & _ & _ & _ & _ & _ & _ & _ & _ & _ & _ & Hts)
                  %shot_request_Ok.
    by rewrite Hv in Hts. }
  split_and!.
  - intros Hnull.
    assert (∀ p, shot_request pg clk (PyDict m) = Ok p → sp_timestamp p = None)
      as Hts.
    { intros p Hp. apply (Hgiven _ Hnull) in Hp. simpl in Hp. congruence. }
    split; [|by apply Hstored].
    destruct ((save_shot pg clk d (PyDict m)).2) as [st pl] eqn:Hresp.
    rewrite save_shot_unfold in Hresp |- *.
    destruct (shot_request pg clk (PyDict m)) as [p|e] eqn:Hp; [|by left].
    cbn [fst snd] in *.
    destruct (Sql.insert_shot (pg_now clk) p d) as [d' [id|e]] eqn:Hi.
    + right. apply insert_shot_Ok in Hi as (s & _ & _ & Hs & _ & _ & ->).
      exists s. split; [done|].
      apply shot_row_Ok in Hs as (_ & _ & _ & _ & _ & _ & _ & ->). simpl.
      by apply Hts.
    + left. by apply insert_shot_Err in Hi as (_ & ? & _).
  - intros [v Hv] clk' Hnow.
    assert (shot_request pg clk' (PyDict m) = shot_request pg clk (PyDict m))
      as Hreq.
    { unfold shot_request, shot_tuple, get. by rewrite Hv. }
    by rewrite !save_shot_unfold, Hreq, Hnow.
  - intros Hnone. apply Hstored.
    intros p (m' & ? & ? & ? & ? & ? & ? & ? & [= <-] & _ & _ & _ & _ &
              _ & _ & _ & _ & _ & _ & _ & _ & _ & _ & _ & _ & Hts)
             %shot_request_Ok.
    rewrite Hnone in Hts. simpl in Hts. congruence.
Qed.

End ShotTwice.

(** Without [club] the shot is refused and nothing is written; without the
    null [timestamp] it is accepted as before. *)
Lemma save_shot_required_fields_witness :
  (∃ k', save_shot pg_plain clk0 db_1001 (PyDict (delete "club" shot_map)) =
           (db_1001, jsonify_500 (KeyError k'))) ∧
  (save_shot pg_plain clk0 db_1001
     (PyDict (delete "timestamp" shot_map_null_timestamp))).2 =
    jsonify (SuccessShot 1).
Proof.
  split.
  - destruct (save_shot_required_fields pg_plain clk0 db_1001
                (delete "club" shot_map)) as (Hmiss & _ & _).
    destruct (Hmiss "club") as (k' & _ & _ & Hk' & _);
      [in_list|vm_compute; reflexivity|].
    by exists k'.
  - destruct (save_shot_required_fields pg_plain clk0 db_1001
                shot_map_null_timestamp) as (_ & _ & Hdrop).
    apply Hdrop; [in_list|vm_compute; reflexivity].
Defined.

(** The shot of the scenario sent twice: identifiers 1 and 2, two rows. *)
Lemma save_shot_twice_witness :
  ∃ s1 s2,
    (save_shot pg_plain clk0 db_1001 shot_1001).2 = jsonify (SuccessShot 1) ∧
    (save_shot pg_plain clk1
       (save_shot pg_plain clk0 db_1001 shot_1001).1 shot_1001).2 =
      jsonify (SuccessShot 2) ∧
    shots (save_shot pg_plain clk1
             (save_shot pg_plain clk0 db_1001 shot_1001).1 shot_1001).1 =
      [s1; s2] ∧
    Shot.shot_id s1 ≠ Shot.shot_id s2 ∧
    Shot.shot_number s2 = Shot.shot_number s1.
Proof.
  edestruct (save_shot_twice pg_plain clk0 clk1 db_1001 shot_1001)
    as (s2 & H1 & H2 & Hrows & _ & _ & Hne & _ & _ & Hnum & _).
  - vm_compute. reflexivity.
  - vm_compute. reflexivity.
  - vm_compute. left.
  - apply Forall_nil_2.
  - vm_compute. discriminate.
  - eexists _, s2. split_and!; [exact H1|exact H2|exact Hrows|exact Hne|exact Hnum].
Defined.

(** The shot of the scenario with [timestamp: null] is stored with a NULL
    timestamp. *)
Lemma save_shot_timestamp_witness :
  ∃ s, shots (save_shot pg_plain clk0 db_1001 shot_null_timestamp).1 = [s] ∧
       Shot.shot_id s = 1%Z ∧ Shot.timestamp s = None.
Proof.
  destruct (save_shot_timestamp pg_plain clk0 db_1001 shot_map_null_timestamp)
    as (Hnull & _ & _).
  destruct Hnull as [_ Hstored]; [vm_compute; reflexivity|].
  apply (Hstored 1%Z). vm_compute. reflexivity.
Defined.

(** ** The sync flag over time *)

Section SyncFlag.

Variable pg : pg_input.

Implicit Types (d : db) (r : Round.row) (id : Z) (c : api_call).

(** What a request can do to [rounds]: nothing, the upsert, or the mark. *)
Lemma handle_rounds clk c d :
  rounds (handle pg clk c d).1 = rounds d ∨
  (∃ p, rounds (handle pg clk c d).1 =
          rounds (Sql.upsert_round (pg_now clk) p d).1) ∨
  (∃ s id, c = POST_mark_synced s ∧
           rounds (handle pg clk c d).1 = rounds (Sql.update_synced id d)).
Proof.
  destruct c as [data|data|data| |s| |]; cbn [handle]; try by left.
  - left. apply save_shot_rounds.
  - left. apply save_hole_rounds.
  - rewrite save_round_unfold.
    destruct (round_request pg clk data) as [p|]; [|by left].
    right. left. by exists p.
  - left. by rewrite export_unsynced_db.
  - unfold mark_synced. destruct (int8in pg (PyStr s)) as [id|]; [|by left].
    right. right. by exists s, id.
Qed.

Lemma upsert_round_find now (p : round_params) d id r :
  Sql.find_round id d = Some r →
  ∃ r', Sql.find_round id (Sql.upsert_round now p d).1 = Some r' ∧
        round_frame r' = round_frame r.
Proof.
  intros Hr. rewrite upsert_round_unfold.
  destruct (rp_round_id p) as [id0|], (rp_date p) as [dt|]; simpl; eauto.
  rewrite find_round_eq in Hr. case_decide; rewrite find_round_eq; simpl.
  - rewrite find_in_fmap, Hr by (intros; apply upsert_keeps_id). simpl.
    eexists. split; [done|]. by case_decide.
  - rewrite find_in_app, Hr. eauto.
Qed.

Lemma upsert_round_fresh now (p : round_params) d id r' :
  Sql.find_round id d = None →
  Sql.find_round id (Sql.upsert_round now p d).1 = Some r' →
  Round.synced_to_local r' = Some false.
Proof.
  intros Hnone. rewrite upsert_round_unfold.
  destruct (rp_round_id p) as [id0|], (rp_date p) as [dt|]; simpl;
    try congruence.
  rewrite find_round_eq in Hnone. case_decide; rewrite find_round_eq; simpl.
  - rewrite find_in_fmap, Hnone by (intros; apply upsert_keeps_id). done.
  - rewrite find_in_app, Hnone, find_in_cons. case_decide; [|done].
    by intros [= <-].
Qed.

Lemma find_round_rounds d d' id :
  rounds d' = rounds d → Sql.find_round id d' = Sql.find_round id d.
Proof. unfold Sql.find_round. by intros ->. Qed.

(** One request keeps a set flag set. *)
Lemma handle_keeps_synced clk c d id r :
  Sql.find_round id d = Some r → Round.synced_to_local r = Some true →
  ∃ r', Sql.find_round id (handle pg clk c d).1 = Some r' ∧
        Round.synced_to_local r' = Some true.
Proof.
  intros Hr Hsync.
  destruct (handle_rounds clk c d) as [Heq|[[p Heq]|(s & id0 & _ & Heq)]];
    rewrite (find_round_rounds _ _ _ Heq).
  - eauto.
  - destruct (upsert_round_find (pg_now clk) p d id r Hr) as (r' & ? & Hfr).
    exists r'. split; [done|]. unfold round_frame in Hfr.
    injection Hfr as _ Hfl _. congruence.
  - rewrite update_synced_find, Hr. simpl. eexists. split; [done|].
    by case_decide.
Qed.

(** C10. A round row that appears has its flag false; a request other than
    mark-synced leaves the flag of every stored round as it is; mark-synced
    leaves a flag as it is or sets it to true; and a flag that is true
    stays true over every sequence of requests. *)
Theorem synced_stays_synced :
  (∀ clk c d id r',
     Sql.find_round id d = None →
     Sql.find_round id (handle pg clk c d).1 = Some r' →
     Round.synced_to_local r' = Some false) ∧
  (∀ clk c d id r,
     (∀ s, c ≠ POST_mark_synced s) →
     Sql.find_round id d = Some r →
     ∃ r', Sql.find_round id (handle pg clk c d).1 = Some r' ∧
           Round.synced_to_local r' = Round.synced_to_local r) ∧
  (∀ clk s d id r,
     Sql.find_round id d = Some r →
     ∃ r', Sql.find_round id (handle pg clk (POST_mark_synced s) d).1 = Some r' ∧
           (Round.synced_to_local r' = Round.synced_to_local r ∨
            Round.synced_to_local r' = Some true)) ∧
  (∀ calls d id r,
     Sql.find_round id d = Some r →
     Round.synced_to_local r = Some true →
     ∃ r', Sql.find_round id (run pg calls d) = Some r' ∧
           Round.synced_to_local r' = Some true).
Proof.
  split_and!.
  - intros clk c d id r' Hnone.
    destruct (handle_rounds clk c d) as [Heq|[[p Heq]|(s & id0 & _ & Heq)]];
      rewrite (find_round_rounds _ _ _ Heq).
    + congruence.
    + by apply upsert_round_fresh.
    + by rewrite update_synced_find, Hnone.
  - intros clk c d id r Hc Hr.
    destruct (handle_rounds clk c d) as [Heq|[[p Heq]|(s & id0 & -> & Heq)]];
      rewrite ?(find_round_rounds _ _ _ Heq).
    + eauto.
    + destruct (upsert_round_find (pg_now clk) p d id r Hr) as (r' & ? & Hfr).
      exists r'. split; [done|]. unfold round_frame in Hfr.
      by injection Hfr as _ Hfl _.
    + by destruct (Hc s).
  - intros clk s d id r Hr. simpl. unfold mark_synced.
    destruct (int8in pg (PyStr s)) as [id0|]; simpl; [|eauto].
    rewrite update_synced_find, Hr. simpl. eexists. split; [done|].
    case_decide; auto.
  - intros calls. induction calls as [|[clk c] calls IH]; intros d id r Hr Hs.
    + simpl. eauto.
    + simpl. destruct (handle_keeps_synced clk c d id r Hr Hs) as (r1 & ? & ?).
      by eapply IH.
Qed.

End SyncFlag.

(** Round 1001, once marked, is still marked after it is upserted again, a
    shot and a hole are recorded, and the export is read. *)
Lemma synced_stays_synced_witness :
  ∃ r', Sql.find_round 1001
          (run pg_plain
             [(clk1, POST_round round_1001_renamed);
              (clk1, POST_shot shot_1001); (clk1, POST_hole hole_1001);
              (clk1, GET_export_unsynced); (clk1, POST_mark_synced "1001")]
             db_1001_synced) = Some r' ∧
        Round.synced_to_local r' = Some true.
Proof.
  destruct (synced_stays_synced pg_plain) as (_ & _ & _ & Hrun).
  apply (Hrun _ db_1001_synced 1001%Z (Sql.mark row_1001));
    vm_compute; reflexivity.
Defined.

(** ** The schema invariant is kept by every request *)

Section Invariant.

Variable pg : pg_input.

Implicit Types (d : db) (c : api_call).

Lemma empty_db_wf : db_wf empty_db.
Proof.
  split; simpl; try apply NoDup_nil_2; apply Forall_nil_2.
Qed.

(** A change of [rounds] that keeps the stored keys and their uniqueness. *)
Lemma wf_set_rounds d l :
  db_wf d → NoDup (Round.round_id <$> l) →
  (∀ id, id ∈ Sql.round_ids d → id ∈ Round.round_id <$> l) →
  db_wf (Sql.set_rounds l d).
Proof.
  intros [] Hnd Hincl. split; simpl; try done.
  - eapply Forall_impl; [done|]. simpl. auto.
  - eapply Forall_impl; [done|]. simpl. auto.
Qed.

Lemma wf_rounds_eq d d' :
  db_wf d → Sql.round_ids d' = Sql.round_ids d → shots d' = shots d →
  holes d' = holes d → shots_shot_id_seq d' = shots_shot_id_seq d →
  holes_hole_id_seq d' = holes_hole_id_seq d → db_wf d'.
Proof.
  intros [] Hr Hs Hh Hss Hhs.
  split; unfold Sql.shot_ids, Sql.hole_ids in *;
    rewrite ?Hr, ?Hs, ?Hh, ?Hss, ?Hhs; done.
Qed.

Lemma upsert_round_wf now (p : round_params) d :
  db_wf d → db_wf (Sql.upsert_round now p d).1.
Proof.
  intros Hwf. pose proof (upsert_round_pkey now p d (wf_rounds_pkey d Hwf)).
  pose proof (λ id, upsert_round_ids_incl now p d id) as Hincl.
  revert H Hincl. rewrite upsert_round_unfold.
  destruct (rp_round_id p), (rp_date p); simpl; try done.
  case_decide; simpl; intros; by apply wf_set_rounds.
Qed.

Lemma insert_shot_wf now (p : shot_params) d :
  db_wf d → db_wf (Sql.insert_shot now p d).1.
Proof.
  intros Hwf. unfold Sql.insert_shot. case_decide as Hseq; [|done].
  assert (db_wf (Sql.set_shots_seq (shots_shot_id_seq d + 1) d)) as Hwf1.
  { destruct Hwf. split; simpl; try done.
    eapply Forall_impl; [done|]. simpl. lia. }
  destruct (Sql.shot_row _ now p) as [s|] eqn:Hs; [|done].
  case_decide as Hpk; [done|]. case_decide as Hfk; [|done].
  apply shot_row_Ok in Hs as (_ & _ & _ & _ & _ & _ & _ & Hs).
  destruct Hwf1. split; simpl; try done.
  - unfold Sql.shot_ids. simpl. rewrite fmap_app. apply NoDup_app.
    split_and!; [done| |apply NoDup_singleton].
    intros x Hx ->%list_elem_of_singleton. apply Hpk. by rewrite Hs in Hx.
  - apply Forall_app. split; [done|]. by apply Forall_singleton.
  - unfold Sql.shot_ids. simpl. rewrite fmap_app. apply Forall_app.
    split; [done|]. apply Forall_singleton. rewrite Hs. simpl. lia.
Qed.

Lemma insert_hole_wf now (p : hole_params) d :
  db_wf d → db_wf (Sql.insert_hole now p d).1.
Proof.
  intros Hwf. unfold Sql.insert_hole. case_decide as Hseq; [|done].
  assert (db_wf (Sql.set_holes_seq (holes_hole_id_seq d + 1) d)) as Hwf1.
  { destruct Hwf. split; simpl; try done.
    eapply Forall_impl; [done|]. simpl. lia. }
  destruct (Sql.hole_row _ now p) as [h|] eqn:Hh; [|done].
  case_decide as Hpk; [done|]. case_decide as Hfk; [|done].
  assert (Hole.hole_id h = (holes_hole_id_seq d + 1)%Z) as Hid.
  { unfold Sql.hole_row in Hh.
    repeat match type of Hh with
    | _ ≫= _ = Ok _ => apply bind_Ok in Hh as (? & _ & Hh)
    end.
    by injection Hh as <-. }
  destruct Hwf1. split; simpl; try done.
  - unfold Sql.hole_ids. simpl. rewrite fmap_app. apply NoDup_app.
    split_and!; [done| |apply NoDup_singleton].
    intros x Hx ->%list_elem_of_singleton. apply Hpk. by rewrite Hid in Hx.
  - apply Forall_app. split; [done|]. by apply Forall_singleton.
  - unfold Sql.hole_ids. simpl. rewrite fmap_app. apply Forall_app.
    split; [done|]. apply Forall_singleton. simpl. lia.
Qed.

Lemma handle_wf clk c d : db_wf d → db_wf (handle pg clk c d).1.
Proof.
  intros Hwf. destruct c as [data|data|data| |s| |]; cbn [handle]; try done.
  - rewrite save_shot_unfold. destruct (shot_request pg clk data); [|done].
    by apply insert_shot_wf.
  - rewrite save_hole_unfold. destruct (hole_request pg data); [|done].
    by apply insert_hole_wf.
  - rewrite save_round_unfold. destruct (round_request pg clk data); [|done].
    by apply upsert_round_wf.
  - by rewrite export_unsynced_db.
  - unfold mark_synced. destruct (int8in pg (PyStr s)) as [id|]; [|done].
    eapply wf_rounds_eq; [done|apply update_synced_ids|done..].
Qed.

(** Every state reached from the empty database satisfies the invariant. *)
Lemma run_wf calls d : db_wf d → db_wf (run pg calls d).
Proof.
  revert d. induction calls as [|[clk c] calls IH]; intros d Hwf; [done|].
  simpl. by apply IH, handle_wf.
Qed.

End Invariant.

(** ** The scenarios of the specification *)

(** Round, shot, export, mark, export: the round is exported with its one
    shot, and is gone from the export once it is marked. *)
Example end_to_end :
  let d1 := run pg_plain
              [(clk0, POST_round round_1001); (clk1, POST_shot shot_1001)]
              empty_db in
  exported (export_unsynced pg_plain d1).2 = [(1001%Z, [1%Z], [])] ∧
  (mark_synced pg_plain d1 "1001").2 = jsonify Success ∧
  exported (export_unsynced pg_plain (mark_synced pg_plain d1 "1001").1).2 = [].
Proof. vm_compute. by split_and!. Qed.

(** Three shots of one hole recorded out of order come back by shot
    number, and a later round comes before an earlier one. *)
Example export_order :
  let d1 := run pg_plain
              [(clk0, POST_round round_1001);
               (clk0, POST_shot (shot_at 1 3)); (clk0, POST_shot (shot_at 2 1));
               (clk0, POST_shot (shot_at 1 1)); (clk0, POST_shot (shot_at 1 2));
               (clk0, POST_hole hole_1001);
               (clk1, POST_round
                        (PyDict (list_to_map [("round_id", PyInt 1002)])))]
              empty_db in
  exported (export_unsynced pg_plain d1).2 =
    [(1002%Z, [], []); (1001%Z, [1; 2; 3; 1]%Z, [1%Z])].
Proof. vm_compute. reflexivity. Qed.

(** * Further properties of the handlers *)

(** ** What the three POST handlers require of a body *)

Section Bodies.

Variable pg : pg_input.

Implicit Types (d : db) (data : pyval) (m : gmap string pyval).

Lemma first_missing_cons k keys m :
  first_missing (k :: keys) m =
    if decide (m !! k = None) then Some k else first_missing keys m.
Proof. unfold first_missing. rewrite filter_cons. by case_decide. Qed.

Lemma hole_tuple_missing m k :
  k ∈ hole_required → m !! k = None →
  ∃ k', first_missing hole_required m = Some k' ∧
        k' ∈ hole_required ∧ m !! k' = None ∧
        hole_tuple (PyDict m) = Err (KeyError k').
Proof.
  intros Hk Hnone. unfold hole_tuple, getitem, hole_required in *.
  rewrite !first_missing_cons.
  destruct (m !! "round_id") eqn:E1;
    [|exists "round_id"; split_and!; [done|in_list|done|done]].
  destruct (m !! "hole") eqn:E2;
    [|exists "hole"; split_and!; [done|in_list|done|done]].
  destruct (m !! "score") eqn:E3;
    [|exists "score"; split_and!; [done|in_list|done|done]].
  exfalso. repeat (apply elem_of_cons in Hk as [->|Hk]; [congruence|]).
  by apply elem_of_nil in Hk.
Qed.

(** X1. A hole body without round_id, hole or score is answered with
    status 500 and a KeyError that names the first of the three keys, in
    this order, that the body lacks, and the database is left as it was;
    with the three keys present the tuple of the INSERT is built, with the
    empty string for notes that are left out. *)
Theorem save_hole_required_fields clk d m :
  (∀ k, k ∈ hole_required → m !! k = None →
     ∃ k', first_missing hole_required m = Some k' ∧
           k' ∈ hole_required ∧ m !! k' = None ∧
           save_hole pg clk d (PyDict m) = (d, jsonify_500 (KeyError k'))) ∧
  (∀ v1 v2 v3,
     m !! "round_id" = Some v1 → m !! "hole" = Some v2 →
     m !! "score" = Some v3 →
     hole_tuple (PyDict m) =
       Ok {| ha_round_id := v1; ha_hole := v2; ha_score := v3;
             ha_notes := default (PyStr "") (m !! "notes") |}).
Proof.
  split.
  - intros k Hk Hnone.
    destruct (hole_tuple_missing m k Hk Hnone) as (k' & ? & ? & ? & Hk').
    exists k'. split_and!; try done.
    unfold save_hole, hole_request. by rewrite Hk'.
  - intros v1 v2 v3 H1 H2 H3. unfold hole_tuple, getitem, get.
    by rewrite H1, H2, H3.
Qed.

(** X3. A body that is not a JSON object is answered with status 500 by
    the three POST handlers, and the database is left as it was. *)
Theorem post_non_object clk d data :
  (∀ m, data ≠ PyDict m) →
  save_shot pg clk d data = (d, jsonify_500 TypeError) ∧
  save_hole pg clk d data = (d, jsonify_500 TypeError) ∧
  save_round pg clk d data = (d, jsonify_500 TypeError).
Proof.
  intros Hdata. destruct data as [| | | | | |m|]; try done.
  by destruct (Hdata m).
Qed.

(** X4. round_id is the one key [save_round] requires: without it the
    answer is status 500 with a KeyError and nothing changes; with it the
    tuple of the INSERT is built, with the application clock for a date
    that is left out and the empty string for a course name that is left
    out. *)
Theorem save_round_required_field clk d m :
  (m !! "round_id" = None →
     save_round pg clk d (PyDict m) =
       (d, jsonify_500 (KeyError "round_id"))) ∧
  (∀ v, m !! "round_id" = Some v →
     round_tuple clk (PyDict m) =
       Ok {| ra_round_id := v;
             ra_date := default (PyDatetime (py_now clk)) (m !! "date");
             ra_course_name := default (PyStr "") (m !! "course_name");
             ra_total_holes := default PyNone (m !! "total_holes");
             ra_total_shots := default PyNone (m !! "total_shots") |}).
Proof.
  split.
  - intros Hnone. unfold save_round, round_request, round_tuple, getitem.
    by rewrite Hnone.
  - intros v Hv. unfold round_tuple, getitem, get. by rewrite Hv.
Qed.

(** What an accepted round request holds in its two NOT NULL columns. *)
Lemma round_request_Ok clk m p :
  round_request pg clk (PyDict m) = Ok p →
  ∃ v, m !! "round_id" = Some v ∧
       to_column (int8in pg) "round_id" v = Ok (rp_round_id p) ∧
       to_timestamp pg "date"
         (default (PyDatetime (py_now clk)) (m !! "date")) = Ok (rp_date p).
Proof.
  unfold round_request, round_tuple, round_values. intros H.
  repeat match goal with
  | H : getitem _ _ = Ok _ |- _ =>
      apply getitem_Ok in H as (? & ? & H); simplify_eq
  | H : get (PyDict _) _ _ = Ok _ |- _ => injection H as H
  | H : _ ≫= _ = Ok _ |- _ => apply bind_Ok in H as (? & ? & H)
  | H : Ok _ = Ok _ |- _ => injection H as H
  end.
  subst. simpl in *. eauto.
Qed.

(** X5. A round body with [round_id: null] or [date: null] is refused
    whatever else it holds: status 500, and the database is left as it
    was. *)
Theorem save_round_null_refused clk d m :
  m !! "round_id" = Some PyNone ∨ m !! "date" = Some PyNone →
  ∃ e, save_round pg clk d (PyDict m) = (d, jsonify_500 e).
Proof.
  intros Hnull.
  destruct (round_request pg clk (PyDict m)) as [p|e] eqn:Hp.
  - destruct (round_request_Ok clk m p Hp) as (v & Hv & Hid & Hdt).
    destruct (save_round_refused pg clk d (PyDict m) p Hp) as [col Hcol];
      [|eauto].
    destruct Hnull as [Hn|Hn].
    + left. rewrite Hn in Hv. injection Hv as <-. simpl in Hid. congruence.
    + right. rewrite Hn in Hdt. simpl in Hdt. congruence.
  - exists e. unfold save_round. by rewrite Hp.
Qed.

End Bodies.

(** A hole without its number and its score: the answer names the
    number, which is read first. *)
Lemma save_hole_required_fields_witness :
  save_hole pg_plain clk0 db_1001
    (PyDict (list_to_map [("round_id", PyInt 1001)])) =
  (db_1001, jsonify_500 (KeyError "hole")).
Proof.
  destruct (save_hole_required_fields pg_plain clk0 db_1001
              (list_to_map [("round_id", PyInt 1001)]))
    as [Hmiss _].
  destruct (Hmiss "score") as (k' & Hfirst & _ & _ & Hk');
    [unfold hole_required; in_list|vm_compute; reflexivity|].
  vm_compute in Hfirst. injection Hfirst as Hfirst. subst k'. exact Hk'.
Defined.

Lemma post_non_object_witness :
  save_shot pg_plain clk0 db_1001 (PyList [shot_1001]) =
    (db_1001, jsonify_500 TypeError).
Proof.
  by destruct (post_non_object pg_plain clk0 db_1001 (PyList [shot_1001]))
    as [? _].
Defined.

Lemma save_round_required_field_witness :
  save_round pg_plain clk0 db_1001
    (PyDict (list_to_map [("course_name", PyStr "Pebble Creek")])) =
  (db_1001, jsonify_500 (KeyError "round_id")).
Proof.
  destruct (save_round_required_field pg_plain clk0 db_1001
              (list_to_map [("course_name", PyStr "Pebble Creek")]))
    as [Hmiss _].
  apply Hmiss. vm_compute. reflexivity.
Defined.

Lemma save_round_null_refused_witness :
  ∃ e, save_round pg_plain clk1 db_1001
         (PyDict (list_to_map [("round_id", PyInt 1001); ("date", PyNone)])) =
       (db_1001, jsonify_500 e).
Proof.
  apply save_round_null_refused. right. vm_compute. reflexivity.
Defined.

(** ** Holes, and what no request undoes *)

Section AppendOnly.

Variable pg : pg_input.

Implicit Types (d : db) (data : pyval) (c : api_call) (id : Z).

Lemma hole_row_Ok id now (p : hole_params) h :
  Sql.hole_row id now p = Ok h ↔
  hp_round_id p = Some (Hole.round_id h) ∧
  hp_hole_number p = Some (Hole.hole_number h) ∧
  hp_score p = Some (Hole.score h) ∧
  h = {| Hole.hole_id := id; Hole.round_id := Hole.round_id h;
         Hole.hole_number := Hole.hole_number h; Hole.score := Hole.score h;
         Hole.par := None; Hole.fairway_hit := None;
         Hole.green_in_regulation := None; Hole.putts := None;
         Hole.notes := hp_notes p; Hole.created_at := Some now |}.
Proof.
  unfold Sql.hole_row. split.
  - intros H.
    repeat match type of H with
    | _ ≫= _ = Ok _ => apply bind_Ok in H as (? & ?%not_null_Ok & H)
    end.
    injection H as <-. by split_and!.
  - intros (-> & -> & -> & Hh). simpl. by rewrite Hh at 4.
Qed.

Lemma insert_hole_Ok now (p : hole_params) d d' :
  Sql.insert_hole now p d = (d', Ok ()) ↔
  ∃ h, (holes_hole_id_seq d < Sql.SERIAL_MAX)%Z ∧
       Sql.hole_row (holes_hole_id_seq d + 1) now p = Ok h ∧
       ((holes_hole_id_seq d + 1)%Z ∉ Sql.hole_ids d) ∧
       Hole.round_id h ∈ Sql.round_ids d ∧
       d' = Sql.add_hole h (Sql.set_holes_seq (holes_hole_id_seq d + 1) d).
Proof.
  unfold Sql.insert_hole. split.
  - intros H. case_decide; [|done].
    destruct (Sql.hole_row _ now p) as [h|] eqn:Hh; [|done].
    repeat case_decide; try done. injection H as <-. eauto 10.
  - intros (h & Hseq & Hh & Hpk & Hfk & ->).
    rewrite decide_True, Hh by done.
    by rewrite decide_False, decide_True.
Qed.

(** X2. A hole whose NOT NULL columns all have a value and whose round is
    stored, sent twice to a database with two free identifiers: both
    requests are answered with success and two rows with the same round,
    hole number, score and notes are appended; nothing looks for an
    earlier row of the same hole. *)
Theorem save_hole_twice clk1 clk2 d data p h1 :
  hole_request pg data = Ok p →
  Sql.hole_row (holes_hole_id_seq d + 1) (pg_now clk1) p = Ok h1 →
  Hole.round_id h1 ∈ Sql.round_ids d →
  Forall (λ id, id ≤ holes_hole_id_seq d)%Z (Sql.hole_ids d) →
  (holes_hole_id_seq d + 2 ≤ Sql.SERIAL_MAX)%Z →
  let d1 := (save_hole pg clk1 d data).1 in
  let d2 := (save_hole pg clk2 d1 data).1 in
  ∃ h2,
    (save_hole pg clk1 d data).2 = jsonify Success ∧
    (save_hole pg clk2 d1 data).2 = jsonify Success ∧
    holes d2 = holes d ++ [h1; h2] ∧
    Hole.hole_id h1 = (holes_hole_id_seq d + 1)%Z ∧
    Hole.hole_id h2 = (holes_hole_id_seq d + 2)%Z ∧
    Hole.round_id h2 = Hole.round_id h1 ∧
    Hole.hole_number h2 = Hole.hole_number h1 ∧
    Hole.score h2 = Hole.score h1 ∧
    Hole.notes h2 = Hole.notes h1.
Proof.
  intros Hp Hh1 Hfk Hfresh Hcap d1 d2.
  set (n := holes_hole_id_seq d) in *.
  assert (Sql.insert_hole (pg_now clk1) p d =
            (Sql.add_hole h1 (Sql.set_holes_seq (n + 1) d), Ok ())) as Hins1.
  { apply insert_hole_Ok. exists h1. split_and!; try done; [lia|].
    intros Hin. rewrite Forall_forall in Hfresh. apply Hfresh in Hin. lia. }
  assert (save_hole pg clk1 d data =
            (Sql.add_hole h1 (Sql.set_holes_seq (n + 1) d), jsonify Success))
    as Hsave1 by (by rewrite save_hole_unfold, Hp, Hins1).
  assert (d1 = Sql.add_hole h1 (Sql.set_holes_seq (n + 1) d)) as Hd1
    by (unfold d1; by rewrite Hsave1).
  pose proof Hh1 as (R1 & R2 & R3 & Hrec)%hole_row_Ok.
  set (h2 := {| Hole.hole_id := n + 2; Hole.round_id := Hole.round_id h1;
                Hole.hole_number := Hole.hole_number h1;
                Hole.score := Hole.score h1; Hole.par := None;
                Hole.fairway_hit := None; Hole.green_in_regulation := None;
                Hole.putts := None; Hole.notes := hp_notes p;
                Hole.created_at := Some (pg_now clk2) |}).
  assert (Sql.insert_hole (pg_now clk2) p d1 =
            (Sql.add_hole h2 (Sql.set_holes_seq (n + 2) d1), Ok ())) as Hins2.
  { apply insert_hole_Ok. exists h2. rewrite Hd1. simpl.
    replace (n + 1 + 1)%Z with (n + 2)%Z by lia.
    split_and!; try done; [lia| |].
    - apply hole_row_Ok. simpl. by split_and!.
    - unfold Sql.hole_ids. simpl. rewrite fmap_app, elem_of_app.
      intros [Hin|Hin].
      + rewrite Forall_forall in Hfresh. apply Hfresh in Hin. lia.
      + apply list_elem_of_singleton in Hin. rewrite Hrec in Hin.
        simpl in Hin. lia. }
  assert (save_hole pg clk2 d1 data =
            (Sql.add_hole h2 (Sql.set_holes_seq (n + 2) d1), jsonify Success))
    as Hsave2 by (by rewrite save_hole_unfold, Hp, Hins2).
  exists h2. rewrite Hsave1. unfold d2. rewrite Hsave2.
  split_and!; try done.
  - rewrite Hd1. simpl. by rewrite <-app_assoc.
  - by rewrite Hrec.
  - simpl. by rewrite Hrec.
Qed.

(** The rows of [shots] after an INSERT: the old ones, possibly one more. *)
Lemma insert_shot_shots now (p : shot_params) d :
  shots d `prefix_of` shots (Sql.insert_shot now p d).1 ∧
  (shots_shot_id_seq d ≤ shots_shot_id_seq (Sql.insert_shot now p d).1)%Z.
Proof.
  unfold Sql.insert_shot.
  repeat (case_decide || destruct (Sql.shot_row _ now p)); simpl;
    (split; [try done|lia]).
  by apply prefix_app_r.
Qed.

Lemma insert_hole_holes now (p : hole_params) d :
  holes d `prefix_of` holes (Sql.insert_hole now p d).1 ∧
  (holes_hole_id_seq d ≤ holes_hole_id_seq (Sql.insert_hole now p d).1)%Z.
Proof.
  unfold Sql.insert_hole.
  repeat (case_decide || destruct (Sql.hole_row _ now p)); simpl;
    (split; [try done|lia]).
  by apply prefix_app_r.
Qed.

Lemma upsert_round_ids_prefix now (p : round_params) d :
  Sql.round_ids d `prefix_of` Sql.round_ids (Sql.upsert_round now p d).1.
Proof.
  destruct (rp_round_id p) as [id|] eqn:Hid, (rp_date p) as [dt|] eqn:Hdt;
    try (by rewrite upsert_round_unfold, Hid, ?Hdt).
  rewrite (upsert_round_ids _ _ _ id dt) by done.
  case_decide; [done|]. by apply prefix_app_r.
Qed.

(** One request: rows of [shots] and [holes] stay where they are, the keys
    of [rounds] stay where they are, the sequences do not go back. *)
Lemma handle_append_only clk c d :
  shots d `prefix_of` shots (handle pg clk c d).1 ∧
  holes d `prefix_of` holes (handle pg clk c d).1 ∧
  Sql.round_ids d `prefix_of` Sql.round_ids (handle pg clk c d).1 ∧
  (shots_shot_id_seq d ≤ shots_shot_id_seq (handle pg clk c d).1)%Z ∧
  (holes_hole_id_seq d ≤ holes_hole_id_seq (handle pg clk c d).1)%Z.
Proof.
  destruct c as [data|data|data| |s| |]; cbn [handle]; try done.
  - rewrite save_shot_unfold. destruct (shot_request pg clk data) as [p|];
      [|done]. cbn [fst].
    destruct (insert_shot_shots (pg_now clk) p d) as [? ?].
    destruct (insert_shot_rounds (pg_now clk) p d) as (Hr & Hh & Hs).
    unfold Sql.round_ids. rewrite Hr, Hh, Hs. by split_and!.
  - rewrite save_hole_unfold. destruct (hole_request pg data) as [p|];
      [|done]. cbn [fst].
    destruct (insert_hole_holes (pg_now clk) p d) as [? ?].
    destruct (insert_hole_rounds (pg_now clk) p d) as (Hr & Hs & Hq).
    unfold Sql.round_ids. rewrite Hr, Hs, Hq. by split_and!.
  - rewrite save_round_unfold. destruct (round_request pg clk data) as [p|];
      [|done]. cbn [fst].
    destruct (upsert_round_other (pg_now clk) p d) as (-> & -> & -> & ->).
    split_and!; try done. apply upsert_round_ids_prefix.
  - by rewrite export_unsynced_db.
  - unfold mark_synced. destruct (int8in pg (PyStr s)) as [id|]; [|done].
    cbn [fst]. rewrite update_synced_ids. by split_and!.
Qed.

(** X6. Over every sequence of requests the rows of [shots] and of
    [holes] are neither removed nor changed nor reordered, only appended
    to, and the same holds for the keys of [rounds]. *)
Theorem run_append_only calls d :
  shots d `prefix_of` shots (run pg calls d) ∧
  holes d `prefix_of` holes (run pg calls d) ∧
  Sql.round_ids d `prefix_of` Sql.round_ids (run pg calls d).
Proof.
  revert d. induction calls as [|[clk c] calls IH]; intros d; [done|].
  simpl. destruct (handle_append_only clk c d) as (Hs & Hh & Hr & _).
  destruct (IH (handle pg clk c d).1) as (Hs' & Hh' & Hr').
  split_and!; by etransitivity.
Qed.

(** X7. Every state reached from the database of [init_db] by a sequence
    of requests satisfies the schema invariant: the primary keys are
    unique, every shot and hole points at a stored round, and no stored
    serial identifier is ahead of its sequence. *)
Theorem reachable_wf calls : db_wf (run pg calls empty_db).
Proof.
  assert (∀ d, db_wf d → db_wf (run pg calls d)) as Hrun.
  { induction calls as [|[clk c] calls IH]; intros d Hwf; [done|].
    simpl. apply IH. destruct c; cbn [handle]; try done.
    - rewrite save_shot_unfold. destruct (shot_request pg clk data); [|done].
      by apply insert_shot_wf.
    - rewrite save_hole_unfold. destruct (hole_request pg data); [|done].
      by apply insert_hole_wf.
    - rewrite save_round_unfold. destruct (round_request pg clk data); [|done].
      by apply upsert_round_wf.
    - by rewrite export_unsynced_db.
    - by apply (handle_wf pg clk (POST_mark_synced round_id)). }
  apply Hrun. split; simpl; try apply NoDup_nil_2; apply Forall_nil_2.
Qed.

(** X8. In a database that satisfies the schema invariant, the identifier
    an accepted shot gets is larger than every stored one and is the new
    value of the sequence; and no request of any kind moves the sequence
    back, so an identifier is not handed out twice even after refused
    requests. *)
Theorem shot_id_fresh clk d data id :
  db_wf d →
  (save_shot pg clk d data).2 = jsonify (SuccessShot id) →
  Forall (λ id', id' < id)%Z (Sql.shot_ids d) ∧
  id ∈ Sql.shot_ids (save_shot pg clk d data).1 ∧
  shots_shot_id_seq (save_shot pg clk d data).1 = id ∧
  ∀ calls, (id ≤ shots_shot_id_seq
                    (run pg calls (save_shot pg clk d data).1))%Z.
Proof.
  intros Hwf (p & Hp & Hins)%save_shot_Ok.
  rewrite save_shot_unfold, Hp. cbn [fst].
  destruct (Sql.insert_shot (pg_now clk) p d) as [d' r] eqn:Hi.
  simpl in Hins. subst r.
  apply insert_shot_Ok in Hi as (s & _ & -> & Hs & _ & _ & ->).
  apply shot_row_Ok in Hs as (_ & _ & _ & _ & _ & _ & _ & Hs).
  split_and!.
  - eapply Forall_impl; [apply (wf_shots_seq d Hwf)|]. simpl. lia.
  - unfold Sql.shot_ids. simpl. rewrite fmap_app, elem_of_app. right.
    rewrite Hs. simpl. left.
  - done.
  - intros calls. cbn [fst].
    assert (∀ calls d0,
      (shots_shot_id_seq d0 ≤ shots_shot_id_seq (run pg calls d0))%Z) as Hmono.
    { clear. intros calls. induction calls as [|[clk c] calls IH]; intros d0;
        [done|]. simpl.
      destruct (handle_append_only clk c d0) as (_ & _ & _ & Hq & _).
      etransitivity; [exact Hq|apply IH]. }
    etransitivity; [|apply Hmono]. done.
Qed.

(** X15. Recording a shot never changes a round, a hole or the sequence of
    the holes, and recording a hole never changes a round, a shot or the
    sequence of the shots, whether the request is accepted or refused. *)
Theorem shot_and_hole_frames clk d data :
  rounds (save_shot pg clk d data).1 = rounds d ∧
  holes (save_shot pg clk d data).1 = holes d ∧
  holes_hole_id_seq (save_shot pg clk d data).1 = holes_hole_id_seq d ∧
  rounds (save_hole pg clk d data).1 = rounds d ∧
  shots (save_hole pg clk d data).1 = shots d ∧
  shots_shot_id_seq (save_hole pg clk d data).1 = shots_shot_id_seq d.
Proof.
  rewrite save_shot_unfold, save_hole_unfold.
  destruct (shot_request pg clk data) as [p|], (hole_request pg data) as [q|];
    cbn [fst]; split_and!; try done;
    solve [apply insert_shot_rounds | apply insert_hole_rounds].
Qed.

End AppendOnly.

(** The hole of the scenario sent twice. *)
Lemma save_hole_twice_witness :
  ∃ h1 h2,
    holes (save_hole pg_plain clk1
             (save_hole pg_plain clk0 db_1001 hole_1001).1 hole_1001).1 =
      [h1; h2] ∧
    Hole.hole_id h2 = 2%Z ∧ Hole.score h2 = Hole.score h1.
Proof.
  edestruct (save_hole_twice pg_plain clk0 clk1 db_1001 hole_1001)
    as (h2 & _ & _ & Hrows & _ & Hid & _ & _ & Hscore & _).
  - vm_compute. reflexivity.
  - vm_compute. reflexivity.
  - vm_compute. left.
  - apply Forall_nil_2.
  - vm_compute. discriminate.
  - eexists _, h2. split_and!; [exact Hrows|exact Hid|exact Hscore].
Defined.

(** The first shot of round 1001 gets identifier 1. *)
Lemma shot_id_fresh_witness :
  1%Z ∈ Sql.shot_ids (save_shot pg_plain clk0 db_1001 shot_1001).1 ∧
  shots_shot_id_seq (save_shot pg_plain clk0 db_1001 shot_1001).1 = 1%Z.
Proof.
  destruct (shot_id_fresh pg_plain clk0 db_1001 shot_1001 1)
    as (_ & Hin & Hseq & _).
  - split; vm_compute; repeat constructor. by intros ?%elem_of_nil.
  - vm_compute. reflexivity.
  - by split.
Defined.

(** ** The export after the other requests *)

Section ExportAfter.

Variable pg : pg_input.

Implicit Types (d : db) (data : pyval) (r : Round.row) (id : Z).

Local Abbreviation unsynced :=
  (λ r : Round.row, Round.synced_to_local r = Some false).

(** An export that fails lists nothing; one that answers lists the keys
    of the rounds the first query selected, in that order. *)
Lemma exported_ids_cases d :
  exported_ids pg d = [] ∨
  exported_ids pg d = Round.round_id <$> Sql.select_unsynced d.
Proof.
  unfold exported_ids, export_unsynced, fetchall.
  destruct (for_each (fetch_round pg) (Sql.select_unsynced d))
    as [fetched|] eqn:Hf; cbn [mbind res_bind]; [|by left].
  destruct (for_each (export_round pg d) fetched) as [items|] eqn:Hi;
    [|by left].
  right. cbn [snd payload jsonify].
  transitivity (Round.round_id <$> fetched).
  - eapply for_each_fmap; [|exact Hi].
    intros r it Hit. by rewrite (export_round_Ok pg d r it Hit).
  - eapply for_each_fmap; [|exact Hf].
    by intros r r' [? _]%fetch_round_Ok.
Qed.

Lemma exported_ids_eq d :
  export_readable d →
  exported_ids pg d = Round.round_id <$> Sql.select_unsynced d.
Proof.
  intros Hread. unfold exported_ids.
  rewrite export_unsynced_readable by done. cbn [snd payload jsonify].
  unfold export_rows. rewrite <-list_fmap_compose. by apply list_fmap_ext.
Qed.

Lemma exported_ids_perm d :
  export_readable d →
  exported_ids pg d ≡ₚ Round.round_id <$> filter unsynced (rounds d).
Proof.
  intros Hread. rewrite exported_ids_eq by done. unfold Sql.select_unsynced.
  by rewrite merge_sort_Permutation.
Qed.

Lemma elem_of_exported id d :
  id ∈ exported_ids pg d →
  ∃ r, r ∈ rounds d ∧ Round.round_id r = id ∧
       Round.synced_to_local r = Some false.
Proof.
  destruct (exported_ids_cases d) as [-> | ->]; [by intros ?%elem_of_nil|].
  intros (r & -> & [? ?]%elem_of_select_unsynced)%list_elem_of_fmap. eauto.
Qed.

Lemma filter_none {A} (P : A → Prop) `{∀ x, Decision (P x)} (l : list A) :
  (∀ x, x ∈ l → ¬ P x) → filter P l = [].
Proof.
  induction l as [|x l IH]; [done|]. intros Hl.
  rewrite filter_cons_False by (apply Hl; left).
  apply IH. intros y Hy. apply Hl. by right.
Qed.

(** X9. Once a round is marked, the export does not list it, whatever the
    database held. *)
Theorem marked_round_not_exported d (s : string) id :
  int8in pg (PyStr s) = Some id →
  id ∉ exported_ids pg (mark_synced pg d s).1.
Proof.
  intros Hs. unfold mark_synced. rewrite Hs. cbn [fst].
  intros (r & Hr & Hid & Hflag)%elem_of_exported.
  unfold Sql.update_synced in Hr. simpl in Hr.
  apply list_elem_of_fmap in Hr as (r0 & -> & _).
  destruct (decide (Round.round_id r0 = id)) as [|Hne]; [done|].
  by destruct Hne.
Qed.

(** X10. In a database that satisfies the schema invariant, a round that
    is stored for the first time is in the next export, with no shots and
    no holes under it, when the timestamps of the rows that export fetches
    lie within the years 1 to 9999. *)
Theorem new_round_exported clk d data p id dt :
  db_wf d →
  round_request pg clk data = Ok p →
  rp_round_id p = Some id → rp_date p = Some dt →
  Sql.find_round id d = None →
  export_readable (save_round pg clk d data).1 →
  ∃ items,
    (export_unsynced pg (save_round pg clk d data).1).2 =
      jsonify (SuccessData items) ∧
    {| ex_round := Sql.new_round id dt (pg_now clk) p;
       ex_shots := []; ex_holes := [] |} ∈ items.
Proof.
  intros Hwf Hp Hid Hdt Hnew Hread.
  rewrite export_unsynced_readable by done. cbn [snd].
  rewrite (save_round_insert pg clk d data p id dt) by done. cbn [fst].
  eexists. split; [reflexivity|]. unfold export_rows.
  apply find_in_None in Hnew.
  set (d' := Sql.set_rounds _ d).
  assert (Sql.select_shots id d' = []) as Hshots.
  { unfold Sql.select_shots. simpl. rewrite filter_none; [done|].
    intros s Hs Hrid. apply Hnew. rewrite <-Hrid.
    pose proof (wf_shots_fkey d Hwf) as Hfk. rewrite Forall_forall in Hfk.
    by apply Hfk. }
  assert (Sql.select_holes id d' = []) as Hholes.
  { unfold Sql.select_holes. simpl. rewrite filter_none; [done|].
    intros h Hh Hrid. apply Hnew. rewrite <-Hrid.
    pose proof (wf_holes_fkey d Hwf) as Hfk. rewrite Forall_forall in Hfk.
    by apply Hfk. }
  apply list_elem_of_fmap. exists (Sql.new_round id dt (pg_now clk) p).
  split; [simpl; by rewrite Hshots, Hholes|].
  unfold Sql.select_unsynced. rewrite merge_sort_Permutation.
  apply list_elem_of_filter. split; [done|].
  simpl. apply elem_of_app. right. left.
Qed.

Lemma unsynced_ids_fmap (f : Round.row → Round.row) (l : list Round.row) :
  (∀ r, round_frame (f r) = round_frame r) →
  Round.round_id <$> filter unsynced (f <$> l) =
  Round.round_id <$> filter unsynced l.
Proof.
  intros Hf. induction l as [|r l IH]; [done|].
  rewrite fmap_cons, !filter_cons.
  pose proof (Hf r) as Hr. unfold round_frame in Hr.
  injection Hr as Hid Hfl _. rewrite Hfl.
  case_decide; [|done]. rewrite !fmap_cons. by rewrite IH, Hid.
Qed.

(** X12. Whatever a round request holds, it neither removes a stored
    round from the export nor brings one back into it, when the
    timestamps of the rows fetched by the export before and by the export
    after lie within the years 1 to 9999. *)
Theorem save_round_keeps_export clk d data id :
  id ∈ Sql.round_ids d →
  export_readable d →
  export_readable (save_round pg clk d data).1 →
  id ∈ exported_ids pg (save_round pg clk d data).1 ↔
  id ∈ exported_ids pg d.
Proof.
  intros Hin Hread Hread'. rewrite !exported_ids_perm by done.
  clear Hread Hread'. rewrite save_round_unfold.
  destruct (round_request pg clk data) as [p|]; [|done]. cbn [fst].
  rewrite upsert_round_unfold.
  destruct (rp_round_id p) as [id0|], (rp_date p) as [dt|]; try done.
  case_decide as Hid0; cbn [fst rounds Sql.set_rounds].
  - rewrite unsynced_ids_fmap; [done|]. intros r. by case_decide.
  - rewrite filter_app, fmap_app, elem_of_app. split; [|by left].
    intros [?|Hnew]; [done|]. exfalso.
    apply list_elem_of_fmap in Hnew as (r & -> & [_ Hr]%list_elem_of_filter).
    apply list_elem_of_singleton in Hr as ->. done.
Qed.

(** X11. A shot that is accepted for a round that is not synced is in
    the next export, under that round, with the identifier the answer
    carried, when the timestamps of the rows that export fetches lie
    within the years 1 to 9999. *)
Theorem saved_shot_exported clk d data id r :
  (save_shot pg clk d data).2 = jsonify (SuccessShot id) →
  request_round_id pg data = Some (Round.round_id r) →
  r ∈ rounds d → Round.synced_to_local r = Some false →
  export_readable (save_shot pg clk d data).1 →
  ∃ items it s,
    (export_unsynced pg (save_shot pg clk d data).1).2 =
      jsonify (SuccessData items) ∧
    it ∈ items ∧ ex_round it = r ∧ s ∈ ex_shots it ∧ Shot.shot_id s = id.
Proof.
  intros (p & Hp & Hins)%save_shot_Ok Hrid Hr Hflag Hread.
  rewrite export_unsynced_readable by done. cbn [snd]. clear Hread.
  rewrite save_shot_unfold, Hp. cbn [fst].
  destruct (Sql.insert_shot (pg_now clk) p d) as [d' res] eqn:Hi.
  simpl in Hins. subst res.
  apply insert_shot_Ok in Hi as (s & _ & -> & Hs & _ & _ & ->).
  apply shot_row_Ok in Hs as (Hsr & _ & _ & _ & _ & _ & _ & Hs).
  apply shot_request_round_id in Hp. rewrite Hsr, Hrid in Hp.
  injection Hp as Hp.
  eexists _, _, s. split; [reflexivity|]. unfold export_rows. split_and!.
  - apply list_elem_of_fmap_2. unfold Sql.select_unsynced.
    rewrite merge_sort_Permutation. apply list_elem_of_filter.
    split; [exact Hflag|exact Hr].
  - done.
  - cbn [ex_shots]. unfold Sql.select_shots.
    rewrite merge_sort_Permutation. apply list_elem_of_filter.
    split; [done|]. simpl. apply elem_of_app. right. left.
  - by rewrite Hs.
Qed.

(** X17. In a database that satisfies the schema invariant the export
    lists no round twice. *)
Theorem export_lists_round_once d : db_wf d → NoDup (exported_ids pg d).
Proof.
  intros Hwf.
  destruct (exported_ids_cases d) as [-> | ->]; [apply NoDup_nil_2|].
  unfold Sql.select_unsynced. rewrite merge_sort_Permutation.
  eapply sublist_NoDup; [apply (wf_rounds_pkey d Hwf)|].
  unfold Sql.round_ids. apply fmap_sublist, sublist_filter.
Qed.





(** X13. Marking changes nothing but flags: shots, holes and sequences
    stay, and every round row is left as it is or has only its flag set. *)
Theorem mark_synced_changes_flags_only d (s : string) :
  shots (mark_synced pg d s).1 = shots d ∧
  holes (mark_synced pg d s).1 = holes d ∧
  shots_shot_id_seq (mark_synced pg d s).1 = shots_shot_id_seq d ∧
  holes_hole_id_seq (mark_synced pg d s).1 = holes_hole_id_seq d ∧
  Forall2 (λ r r', r' = r ∨ r' = Sql.mark r)
    (rounds d) (rounds (mark_synced pg d s).1).
Proof.
  unfold mark_synced. destruct (int8in pg (PyStr s)) as [id|]; cbn [fst].
  - split_and!; try done. simpl. apply Forall2_fmap_r, Forall_Forall2_diag.
    apply Forall_forall. intros r _. simpl.
    destruct (decide (Round.round_id r = id)); auto.
  - split_and!; try done. apply Forall_Forall2_diag, Forall_forall. auto.
Qed.

Lemma update_synced_comm id1 id2 d :
  Sql.update_synced id1 (Sql.update_synced id2 d) =
  Sql.update_synced id2 (Sql.update_synced id1 d).
Proof.
  unfold Sql.update_synced, Sql.set_rounds. simpl. f_equal.
  rewrite <-!list_fmap_compose. apply list_fmap_ext. intros ? r _. simpl.
  destruct (decide (Round.round_id r = id1)), (decide (Round.round_id r = id2));
    simpl; repeat case_decide; done.
Qed.

(** X14. Two marks give the same database in either order. *)
Theorem mark_synced_commute d (s1 s2 : string) :
  (mark_synced pg (mark_synced pg d s1).1 s2).1 =
  (mark_synced pg (mark_synced pg d s2).1 s1).1.
Proof.
  unfold mark_synced.
  destruct (int8in pg (PyStr s1)) as [id1|] eqn:H1,
           (int8in pg (PyStr s2)) as [id2|] eqn:H2;
    cbn [fst]; rewrite ?H1, ?H2; cbn [fst]; try done.
  apply update_synced_comm.
Qed.

End ExportAfter.

(** Round 1001 leaves the export when it is marked. *)
Lemma marked_round_not_exported_witness :
  1001%Z ∈ exported_ids pg_plain db_1001 ∧
  1001%Z ∉ exported_ids pg_plain db_1001_synced.
Proof.
  split; [vm_compute; left|].
  apply (marked_round_not_exported pg_plain db_1001 "1001" 1001).
  vm_compute. reflexivity.
Defined.

(** Round 1001 is exported right after it is stored. *)
Lemma new_round_exported_witness :
  ∃ items,
    (export_unsynced pg_plain db_1001).2 = jsonify (SuccessData items) ∧
    {| ex_round := row_1001; ex_shots := []; ex_holes := [] |} ∈ items.
Proof.
  edestruct (new_round_exported pg_plain clk0 empty_db round_1001)
    as (items & Hitems & Hin).
  - split; simpl; constructor.
  - vm_compute. reflexivity.
  - vm_compute. reflexivity.
  - vm_compute. reflexivity.
  - vm_compute. reflexivity.
  - apply (bool_decide_unpack _). vm_compute. reflexivity.
  - exists items. split; [exact Hitems|exact Hin].
Defined.

(** Renaming round 1001 keeps it in the export. *)
Lemma save_round_keeps_export_witness :
  1001%Z ∈
    exported_ids pg_plain
      (save_round pg_plain clk1 db_1001 round_1001_renamed).1.
Proof.
  apply (save_round_keeps_export pg_plain clk1 db_1001 round_1001_renamed 1001).
  - vm_compute. left.
  - apply (bool_decide_unpack _). vm_compute. reflexivity.
  - apply (bool_decide_unpack _). vm_compute. reflexivity.
  - vm_compute. left.
Defined.

(** The shot of the scenario is exported under round 1001. *)
Lemma saved_shot_exported_witness :
  ∃ items it s,
    (export_unsynced pg_plain
       (save_shot pg_plain clk0 db_1001 shot_1001).1).2 =
      jsonify (SuccessData items) ∧
    it ∈ items ∧ ex_round it = row_1001 ∧ s ∈ ex_shots it ∧
    Shot.shot_id s = 1%Z.
Proof.
  apply (saved_shot_exported pg_plain clk0 db_1001 shot_1001 1 row_1001).
  - vm_compute. reflexivity.
  - vm_compute. reflexivity.
  - vm_compute. left.
  - reflexivity.
  - apply (bool_decide_unpack _). vm_compute. reflexivity.
Defined.


Lemma export_lists_round_once_witness :
  NoDup (exported_ids pg_plain db_1001).
Proof.
  apply export_lists_round_once.
  split; vm_compute; repeat constructor. by intros ?%elem_of_nil.
Defined.

(** ** The connection string *)

Section ConnectionString.

Lemma startswith_app s pre :
  startswith s pre = true ↔ ∃ rest, s = pre +:+ rest.
Proof.
  revert s. induction pre as [|a pre IH]; intros s; simpl.
  - destruct s; split; eauto.
  - destruct s as [|b s]; simpl.
    + split; [done|]. by intros [? ?].
    + case_decide as Hab.
      * subst b. rewrite IH. split.
        -- intros [rest ->]. by exists rest.
        -- intros [rest [= ->]]. by exists rest.
      * split; [done|]. intros [rest [= ? _]]. congruence.
Qed.

Lemma str_drop_app pre rest :
  str_drop (String.length pre) (pre +:+ rest) = rest.
Proof. induction pre as [|a pre IH]; simpl; [by destruct rest|done]. Qed.

Lemma replace_1_unfold old new s :
  replace_1 old new s =
    if startswith s old then new +:+ str_drop (String.length old) s
    else
      match s with
      | EmptyString => EmptyString
      | String a s => String a (replace_1 old new s)
      end.
Proof. by destruct s. Qed.

Lemma DATABASE_URL_Some u :
  DATABASE_URL (Some u) =
    Some (if startswith u "postgres://"
          then replace_1 "postgres://" "postgresql://" u else u).
Proof.
  destruct u as [|a u]; [done|]. unfold DATABASE_URL.
  by destruct (startswith (String a u) "postgres://").
Qed.

(** X16. The connection string the server uses never starts with
    [postgres://]: that prefix is replaced by [postgresql://] and the rest
    is kept, any other string is kept as it is, and doing it again changes
    nothing. *)
Theorem database_url_normalized env url :
  DATABASE_URL env = Some url →
  startswith url "postgres://" = false ∧
  DATABASE_URL (Some url) = Some url ∧
  (∀ rest, env = Some ("postgres://" +:+ rest) →
     url = "postgresql://" +:+ rest) ∧
  (∀ u, env = Some u → startswith u "postgres://" = false → url = u).
Proof.
  destruct env as [u|]; [|done]. rewrite DATABASE_URL_Some. intros [= <-].
  destruct (startswith u "postgres://") eqn:Hpre.
  - apply startswith_app in Hpre as Hu. destruct Hu as [rest ->].
    rewrite replace_1_unfold, Hpre, str_drop_app.
    assert (startswith ("postgresql://" +:+ rest) "postgres://" = false)
      as Hno by done.
    split_and!.
    + exact Hno.
    + by rewrite DATABASE_URL_Some, Hno.
    + by intros rest' [= ->%(inj (String.app _))].
    + intros u' [= <-]. congruence.
  - split_and!.
    + done.
    + by rewrite DATABASE_URL_Some, Hpre.
    + intros rest [= ->]. exfalso.
      assert (startswith ("postgres://" +:+ rest) "postgres://" = true)
        by (apply startswith_app; eauto).
      congruence.
    + by intros u' [= <-].
Qed.

End ConnectionString.

(** A connection string as the hosting service hands it out. *)
Lemma database_url_normalized_witness :
  DATABASE_URL (Some "postgres://golf:pw@db.example.com:5432/golf") =
    Some "postgresql://golf:pw@db.example.com:5432/golf".
Proof.
  destruct (database_url_normalized
              (Some "postgres://golf:pw@db.example.com:5432/golf")
              "postgresql://golf:pw@db.example.com:5432/golf")
    as (_ & _ & Hrepl & _); [reflexivity|].
  rewrite (Hrepl "golf:pw@db.example.com:5432/golf" eq_refl). reflexivity.
Defined.

(** * Properties of the page script *)

Section ScriptFacts.

Variable env : Client.js.

Implicit Types (st : Client.state) (ev : Client.event) (s : Client.shot).

(** X18. Without a club or without a position [recordShot] changes
    nothing and sends nothing; without a score [finishHole] changes
    nothing and sends nothing; an [endRound] that is not confirmed does
    nothing at all. *)
Theorem script_guards st iso now :
  (Client.club_value st = "" ∨ Client.currentPosition st = None →
     (Client.recordShot env iso st).1 = st ∧
     ∀ path, Client.posts path (Client.recordShot env iso st).2 = []) ∧
  (Client.hole_score_value st = "" →
     Client.finishHole env st = (st, [Client.alert Client.enter_score])) ∧
  Client.endRound env false iso now st = (st, []).
Proof.
  split_and!; [|by intros Hs; unfold Client.finishHole; rewrite decide_True|done].
  intros Hguard. unfold Client.recordShot.
  destruct (decide (Client.club_value st = "")); [done|].
  destruct Hguard as [?| ->]; done.
Qed.

Lemma hole_shots_snoc h (l : list Client.shot) s :
  Client.hole_shots h (l ++ [s]) =
    Client.hole_shots h l ++ (if decide (Client.hole s = h) then [s] else []).
Proof.
  unfold Client.hole_shots. by rewrite filter_app.
Qed.

Lemma recordShot_ok iso st :
  Client.shots_ok st → Client.shots_ok (Client.recordShot env iso st).1.
Proof.
  intros (Hnum & Hnd & Hcur & Hholes & Hdist). unfold Client.recordShot.
  case_decide; [done|].
  destruct (Client.currentPosition st) as [p|]; [|done].
  set (cur := Client.hole_shots (Client.currentHole st) (Client.shots st)).
  set (s := Client.new_shot env st p iso).
  assert (Client.hole s = Client.currentHole st) as Hhole by done.
  assert (Client.shot_number s = (Z.of_nat (length cur) + 1)%Z) as Hn by done.
  pose proof (Hnum (Client.currentHole st)) as Hc. fold cur in Hc.
  split_and!; cbn [fst Client.shots Client.currentHole].
  - intros h. rewrite hole_shots_snoc, Hhole.
    case_decide as Hh; [|rewrite app_nil_r; apply Hnum].
    subst h. fold cur. rewrite fmap_app, length_app, Nat2Z.inj_add, Hc.
    rewrite (seqZ_app 1) by lia. f_equal.
    change (Z.of_nat (length [s])) with 1%Z.
    rewrite seqZ_cons, seqZ_nil by lia.
    change (Client.shot_number <$> [s]) with [Client.shot_number s].
    rewrite Hn. f_equal. lia.
  - rewrite fmap_app. apply NoDup_app. split_and!; [done| |apply NoDup_singleton].
    intros x Hx ->%list_elem_of_singleton.
    apply list_elem_of_fmap in Hx as (s' & Heq & Hs').
    assert (Client.hole s' = Client.currentHole st ∧
            Client.shot_number s' = (Z.of_nat (length cur) + 1)%Z)
      as [Hh' Hn'] by (rewrite <-Hhole, <-Hn; by injection Heq).
    assert (Client.shot_number s' ∈ Client.shot_number <$> cur) as Hin.
    { apply list_elem_of_fmap_2. unfold cur, Client.hole_shots.
      by apply list_elem_of_filter. }
    rewrite Hc in Hin. apply elem_of_seqZ in Hin. lia.
  - done.
  - apply Forall_app. split; [done|]. apply Forall_singleton. lia.
  - apply Forall_app. split; [done|]. apply Forall_singleton.
    rewrite Hn. simpl. fold cur. destruct (last cur) eqn:Hlast.
    + split; [done|]. intros Hone.
      assert (cur = []) as Hnil by (apply length_zero_iff_nil; lia).
      by rewrite Hnil in Hlast.
    + apply last_None in Hlast. rewrite Hlast. done.
Qed.

Lemma step_ok st ev : Client.shots_ok st → Client.shots_ok (Client.step env st ev).1.
Proof.
  intros Hok. destruct ev; try exact Hok.
  - by apply recordShot_ok.
  - destruct Hok as (Hnum & Hnd & Hcur & Hholes & Hdist).
    unfold Client.step, Client.finishHole. case_decide; [done|].
    split_and!; cbn [fst Client.shots Client.currentHole]; try done; [lia|].
    eapply Forall_impl; [exact Hholes|]. simpl. intros s ?. lia.
  - destruct confirmed; [|exact Hok].
    split_and!; cbn [fst Client.shots Client.currentHole];
      try done; try apply Forall_nil_2. apply NoDup_nil_2.
  - unfold Client.step, Client.findNearbyCourses.
    by destruct (Client.currentPosition st).
Qed.

Lemma play_cons ev evs st :
  Client.play env (ev :: evs) st =
    ((Client.play env evs (Client.step env st ev).1).1,
     (Client.step env st ev).2 ++
     (Client.play env evs (Client.step env st ev).1).2).
Proof.
  change (Client.play env (ev :: evs) st) with
    (let '(st1, out1) := Client.step env st ev in
     let '(st2, out2) := Client.play env evs st1 in (st2, out1 ++ out2)).
  destruct (Client.step env st ev) as [st1 out1]. cbn [fst snd].
  by destruct (Client.play env evs st1) as [st2 out2].
Qed.

(** X19. At any time of a session the shots of each hole are numbered 1,
    2, 3, ... in the order they were recorded, no two shots share a hole
    and a number, every shot lies on a hole from 1 to the current one, and
    a shot carries a distance exactly when it is not the first of its
    hole. *)
Theorem shots_numbered evs now saved :
  let st := (Client.play env evs (Client.load now saved)).1 in
  Client.numbered (Client.shots st) ∧
  NoDup ((λ s, (Client.hole s, Client.shot_number s)) <$> Client.shots st) ∧
  (1 ≤ Client.currentHole st)%Z ∧
  Forall (λ s, 1 ≤ Client.hole s ≤ Client.currentHole st)%Z
    (Client.shots st) ∧
  Forall (λ s, Client.distance s = None ↔ Client.shot_number s = 1%Z)
    (Client.shots st).
Proof.
  assert (∀ st, Client.shots_ok st → Client.shots_ok (Client.play env evs st).1) as Hplay.
  { induction evs as [|ev evs IH]; intros st Hok; [done|].
    rewrite play_cons. cbn [fst]. by apply IH, step_ok. }
  apply Hplay. split_and!; simpl; try done; try apply Forall_nil_2.
  apply NoDup_nil_2.
Qed.

End ScriptFacts.

(** ** What the page sends and what the handlers read *)

Section PostedBodies.

Variable env : Client.js.

Implicit Types (st : Client.state) (ev : Client.event) (s : Client.shot).

Lemma shot_body_tuple clk rid s :
  shot_tuple clk (Client.shot_body env rid s) =
    Ok {| sa_round_id := PyInt rid; sa_hole := PyInt (Client.hole s);
          sa_shot_number := PyInt (Client.shot_number s);
          sa_club := PyStr (Client.club s);
          sa_shot_type := PyStr (Client.shot_type s);
          sa_latitude := Client.json_number env (Client.latitude s);
          sa_longitude := Client.json_number env (Client.longitude s);
          sa_accuracy := Client.json_number env (Client.accuracy s);
          sa_distance :=
            match Client.distance s with
            | Some yards => Client.json_number env yards
            | None => PyNone
            end;
          sa_timestamp := PyStr (Client.timestamp s) |}.
Proof.
  unfold Client.shot_body, Client.shot_json.
  by destruct (Client.distance s).
Qed.

Lemma hole_body_tuple rid h score notes (l : list Client.shot) :
  hole_tuple (Client.hole_body env rid h score notes l) =
    Ok {| ha_round_id := PyInt rid; ha_hole := PyInt h;
          ha_score := PyStr score; ha_notes := PyStr notes |}.
Proof. done. Qed.

Lemma round_body_tuple clk st iso :
  round_tuple clk (Client.round_body env st iso) =
    Ok {| ra_round_id := PyInt (Client.roundId st); ra_date := PyStr iso;
          ra_course_name :=
            PyStr (Client.trim env (Client.course_name_value st));
          ra_total_holes := PyInt (Client.currentHole st - 1);
          ra_total_shots :=
            PyInt (Z.of_nat (length (Client.shots st))) |}.
Proof. done. Qed.

(** The course search goes to another server: no handler of [app.py]
    receives it. *)
Lemma route_overpass body : route Client.overpass_url body = None.
Proof. done. Qed.

(** X20. Every request the page sends is either the course search, which
    goes to overpass-api.de and reaches no handler of this server, or goes
    to one of the three POST paths.  A request to one of the three paths
    carries every key its handler reads with [data[...]], so none is
    answered with a KeyError; it names the round of the page, and it
    carries its own time, so the server never stamps it with its own
    clock.  The summary of a round carries the number of shots the page
    holds and the number of holes it has finished. *)
Theorem posted_bodies_are_complete st ev clk path body :
  Client.fetch path body ∈ (Client.step env st ev).2 →
  (path = Client.overpass_url ∧ route path body = None ∧
   ∃ answer p, ev = Client.click_find_courses answer ∧
               Client.currentPosition st = Some p ∧
               body = PyStr (Client.overpass_query env
                               (Client.coords_latitude p)
                               (Client.coords_longitude p))) ∨
  (path = "/api/shot" ∧
   ∃ a iso, shot_tuple clk body = Ok a ∧
            sa_round_id a = PyInt (Client.roundId st) ∧
            sa_hole a = PyInt (Client.currentHole st) ∧
            sa_club a = PyStr (Client.club_value st) ∧
            sa_timestamp a = PyStr iso) ∨
  (path = "/api/hole" ∧
   ∃ a, hole_tuple body = Ok a ∧
        ha_round_id a = PyInt (Client.roundId st) ∧
        ha_hole a = PyInt (Client.currentHole st) ∧
        ha_score a = PyStr (Client.hole_score_value st) ∧
        ha_notes a = PyStr (Client.hole_notes_value st)) ∨
  (path = "/api/round" ∧
   ∃ a iso, round_tuple clk body = Ok a ∧
            ra_round_id a = PyInt (Client.roundId st) ∧
            ra_date a = PyStr iso ∧
            ra_total_holes a = PyInt (Client.currentHole st - 1) ∧
            ra_total_shots a =
              PyInt (Z.of_nat (length (Client.shots st)))).
Proof.
  destruct ev; simpl; try by intros ?%elem_of_nil.
  - unfold Client.recordShot. case_decide.
    { intros [=]%list_elem_of_singleton. }
    destruct (Client.currentPosition st) as [p|].
    2: { intros [=]%list_elem_of_singleton. }
    intros [= -> ->]%list_elem_of_singleton. right. left. split; [done|].
    eexists _, _. split; [apply shot_body_tuple|]. by split_and!.
  - unfold Client.finishHole. case_decide.
    { intros [=]%list_elem_of_singleton. }
    intros [[= -> ->]|[[=]|[]%elem_of_nil]%elem_of_cons]%elem_of_cons.
    right. right. left. split; [done|].
    eexists. split; [apply hole_body_tuple|]. by split_and!.
  - unfold Client.endRound. destruct confirmed.
    2: { by intros ?%elem_of_nil. }
    intros [[= -> ->]|[[=]|[]%elem_of_nil]%elem_of_cons]%elem_of_cons.
    right. right. right. split; [done|].
    eexists _, _. split; [apply round_body_tuple|]. by split_and!.
  - unfold Client.findNearbyCourses.
    destruct (Client.currentPosition st) as [p|].
    2: { intros [=]%list_elem_of_singleton. }
    intros [[= -> ->]|[[=]|[]%elem_of_nil]%elem_of_cons]%elem_of_cons.
    left. split_and!; [done|done|]. by exists answer, p.
Qed.

End PostedBodies.

(** ** One round of the page *)

Section OneRound.

Variable env : Client.js.

Implicit Types (st : Client.state) (ev : Client.event) (evs : list Client.event).

(** An event that does not end the round. *)
Local Abbreviation in_round ev :=
  (∀ iso now, ev ≠ Client.click_end true iso now).

(** A request of a round in progress: the course search, or a shot or a
    hole, naming the round. *)
Local Abbreviation of_round rid e :=
  (match e with
   | Client.alert _ => True
   | Client.fetch path body =>
       path = Client.overpass_url ∨
       (path = "/api/shot" ∨ path = "/api/hole") ∧
       getitem body "round_id" = Ok (PyInt rid)
   end).

Lemma posts_app path (out1 out2 : list Client.effect) :
  Client.posts path (out1 ++ out2) =
  Client.posts path out1 ++ Client.posts path out2.
Proof. apply omap_app. Qed.

Lemma step_in_round st ev :
  in_round ev →
  length (Client.shots (Client.step env st ev).1) =
    length (Client.shots st) +
    length (Client.posts "/api/shot" (Client.step env st ev).2) ∧
  Client.currentHole (Client.step env st ev).1 =
    (Client.currentHole st +
     Z.of_nat (length (Client.posts "/api/hole" (Client.step env st ev).2)))%Z ∧
  Client.roundId (Client.step env st ev).1 = Client.roundId st ∧
  Client.posts "/api/round" (Client.step env st ev).2 = [] ∧
  Forall (λ e, of_round (Client.roundId st) e) (Client.step env st ev).2.
Proof.
  intros Hev. destruct ev; simpl;
    try (split_and!; [lia|lia|done|done|apply Forall_nil_2]).
  - unfold Client.recordShot. case_decide.
    { split_and!; simpl; [lia|lia|done|done|by repeat constructor]. }
    destruct (Client.currentPosition st) as [p|].
    2: { split_and!; simpl; [lia|lia|done|done|by repeat constructor]. }
    split_and!; cbn [fst snd Client.shots Client.currentHole Client.roundId].
    + rewrite length_app. done.
    + simpl. lia.
    + done.
    + done.
    + apply Forall_singleton. right. split; [by left|].
      unfold Client.shot_body, Client.shot_json.
      by destruct (Client.distance _).
  - unfold Client.finishHole. case_decide.
    { split_and!; simpl; [lia|lia|done|done|by repeat constructor]. }
    split_and!; cbn [fst snd Client.shots Client.currentHole Client.roundId].
    + simpl. lia.
    + simpl. lia.
    + done.
    + done.
    + apply Forall_cons. split; [right; split; [by right|done]|].
      by apply Forall_singleton.
  - destruct confirmed; [by destruct (Hev iso now)|].
    split_and!; simpl; [lia|lia|done|done|apply Forall_nil_2].
  - unfold Client.findNearbyCourses.
    destruct (Client.currentPosition st) as [p|].
    + split_and!; simpl; [lia|lia|done|done|].
      apply Forall_cons. split; [by left|]. by apply Forall_singleton.
    + split_and!; simpl; [lia|lia|done|done|by repeat constructor].
Qed.

(** The requests of a round in progress name the round, and none of them
    is a summary. *)
Lemma play_of_round evs st0 :
  Forall (λ ev, in_round ev) evs →
  Client.roundId (Client.play env evs st0).1 = Client.roundId st0 ∧
  Client.posts "/api/round" (Client.play env evs st0).2 = [] ∧
  Forall (λ e, of_round (Client.roundId st0) e) (Client.play env evs st0).2.
Proof.
  intros Hevs. revert st0.
  induction Hevs as [|ev evs Hev _ IH]; intros st0.
  - simpl. split_and!; [done|done|apply Forall_nil_2].
  - rewrite play_cons. cbn [fst snd].
    destruct (step_in_round st0 ev Hev) as (_ & _ & Hr & Hp & Ho).
    destruct (IH (Client.step env st0 ev).1) as (Hr' & Hp' & Ho').
    rewrite posts_app. split_and!.
    + by rewrite Hr', Hr.
    + by rewrite Hp, Hp'.
    + apply Forall_app. split; [done|]. by rewrite <-Hr.
Qed.

(** X21. While a round is in progress, every request of the page is
    either the course search sent to overpass-api.de or a shot or a hole
    that names the round, and none is a summary; the page holds as many
    shots as it has sent shot requests and has finished as many holes as
    it has sent hole requests, so the totals of the summary are the
    numbers of requests sent. *)
Theorem round_in_progress evs st0 :
  Forall (λ ev, in_round ev) evs →
  let st := (Client.play env evs st0).1 in
  let out := (Client.play env evs st0).2 in
  length (Client.shots st) =
    length (Client.shots st0) + length (Client.posts "/api/shot" out) ∧
  Client.currentHole st =
    (Client.currentHole st0 +
     Z.of_nat (length (Client.posts "/api/hole" out)))%Z ∧
  Client.roundId st = Client.roundId st0 ∧
  Client.posts "/api/round" out = [] ∧
  Forall (λ e, of_round (Client.roundId st0) e) out.
Proof.
  intros Hevs. cbn zeta.
  destruct (play_of_round evs st0 Hevs) as (Hrid & Hnone & Hin).
  split_and!; try done; clear Hrid Hnone Hin; revert st0.
  - induction Hevs as [|ev evs Hev _ IH]; intros st0; [simpl; lia|].
    rewrite play_cons. cbn [fst snd].
    destruct (step_in_round st0 ev Hev) as (Hs & _).
    rewrite posts_app, length_app, IH, Hs. lia.
  - induction Hevs as [|ev evs Hev _ IH]; intros st0; [simpl; lia|].
    rewrite play_cons. cbn [fst snd].
    destruct (step_in_round st0 ev Hev) as (_ & Hh & _).
    rewrite posts_app, length_app, IH, Hh. lia.
Qed.

End OneRound.

(** ** The list of recent courses *)

Section RecentCourses.

Variable env : Client.js.

Lemma remember_elem name (saved : list string) :
  name ≠ "" → name ∈ Client.remember name saved.
Proof.
  intros Hname. unfold Client.remember.
  case_decide as Hnew.
  - case_decide as Hlong; [|left].
    simpl in *. destruct saved as [|c saved]; [simpl in Hlong; lia|].
    simpl. left.
  - destruct (decide (name ∈ saved)) as [|Hout]; [done|].
    by destruct Hnew.
Qed.

Lemma remember_idem name (saved : list string) :
  Client.remember name (Client.remember name saved) =
  Client.remember name saved.
Proof.
  destruct (decide (name = "")) as [->|Hname].
  - unfold Client.remember. rewrite !decide_False; [done|by intros [? _]..].
  - pose proof (remember_elem name saved Hname) as Hin.
    unfold Client.remember at 1. rewrite decide_False; [done|].
    by intros [_ ?].
Qed.

(** X22. [saveCourseName] keeps the list of recent courses free of
    repetitions and no longer than ten, puts every name that is not empty
    into it, and changes nothing when it runs a second time. *)
Theorem saved_courses_recent (st : Client.state) :
  let st' := Client.saveCourseName env st in
  (NoDup (Client.savedCourses st) → NoDup (Client.savedCourses st')) ∧
  (length (Client.savedCourses st) ≤ 10 →
   length (Client.savedCourses st') ≤ 10) ∧
  (Client.courseName st' ≠ "" →
   Client.courseName st' ∈ Client.savedCourses st') ∧
  Client.saveCourseName env st' = st'.
Proof.
  cbn zeta. split_and!.
  - intros Hnd. simpl. unfold Client.remember.
    case_decide as Hnew; [|done]. destruct Hnew as [_ Hnew].
    assert (NoDup (Client.trim env (Client.course_name_value st) ::
                   Client.savedCourses st)) as Hnd'
      by (by apply NoDup_cons).
    case_decide; [|done]. eapply sublist_NoDup; [exact Hnd'|].
    apply sublist_take.
  - intros Hlen. simpl. unfold Client.remember.
    case_decide; [|done]. case_decide as Hlong.
    + rewrite length_take. simpl in *. lia.
    + simpl in *. lia.
  - simpl. apply remember_elem.
  - unfold Client.saveCourseName. simpl. by rewrite remember_idem.
Qed.

End RecentCourses.

(** ** A round played against the server *)

Section Session.

Variable env : Client.js.
Variable pg : pg_input.

Implicit Types (d : db) (out : list (clock * Client.effect)).

(** A shot or a hole that names a round which is not stored leaves the
    three tables as they were. *)
Lemma unknown_round_tables clk d body :
  (∀ id, request_round_id pg body = Some id → id ∉ Sql.round_ids d) →
  rounds (save_shot pg clk d body).1 = rounds d ∧
  shots (save_shot pg clk d body).1 = shots d ∧
  holes (save_shot pg clk d body).1 = holes d ∧
  rounds (save_hole pg clk d body).1 = rounds d ∧
  shots (save_hole pg clk d body).1 = shots d ∧
  holes (save_hole pg clk d body).1 = holes d.
Proof.
  intros Hnew.
  destruct (save_shot_rounds pg clk d body) as [Hr Hh].
  destruct (save_hole_rounds pg clk d body) as [Hr' Hs'].
  split_and!; try done.
  - rewrite save_shot_unfold.
    destruct (shot_request pg clk body) as [p|e] eqn:Hp; [|done].
    destruct (Sql.insert_shot (pg_now clk) p d) as [d' [id'|e]] eqn:Hins.
    + apply insert_shot_Ok in Hins as (s & _ & _ & Hs & _ & Hfk & _).
      apply shot_row_Ok in Hs as (Hrid & _).
      apply shot_request_round_id in Hp. rewrite Hrid in Hp.
      by destruct (Hnew _ (eq_sym Hp)).
    + by apply insert_shot_Err in Hins as (_ & ? & _).
  - rewrite save_hole_unfold.
    destruct (hole_request pg body) as [p|e] eqn:Hp; [|done].
    destruct (Sql.insert_hole (pg_now clk) p d) as [d' [u|e]] eqn:Hins.
    + apply insert_hole_Ok_round in Hins as (rid & Hrid & Hfk).
      apply hole_request_round_id in Hp. rewrite Hrid in Hp.
      by destruct (Hnew _ (eq_sym Hp)).
    + by apply insert_hole_Err in Hins.
Qed.

Lemma deliver_in_round rid out d :
  Forall (λ e, match e.2 with
               | Client.alert _ => True
               | Client.fetch path body =>
                   path = Client.overpass_url ∨
                   (path = "/api/shot" ∨ path = "/api/hole") ∧
                   getitem body "round_id" = Ok (PyInt rid)
               end) out →
  (∀ id, int8in pg (PyInt rid) = Some id → id ∉ Sql.round_ids d) →
  rounds (deliver pg out d) = rounds d ∧
  shots (deliver pg out d) = shots d ∧
  holes (deliver pg out d) = holes d.
Proof.
  intros Hout. revert d. induction Hout as [|[clk e] out He _ IH]; intros d Hnew;
    [done|].
  destruct e as [msg|path body]; simpl; [by apply IH|].
  simpl in He. destruct He as [-> |[Hpath Hrid]];
    [rewrite route_overpass; by apply IH|].
  assert (∀ id, request_round_id pg body = Some id → id ∉ Sql.round_ids d)
    as Hnew' by (unfold request_round_id; by rewrite Hrid).
  destruct (unknown_round_tables clk d body Hnew')
    as (Hr & Hs & Hh & Hr' & Hs' & Hh').
  destruct Hpath as [-> | ->]; simpl.
  - destruct (IH (save_shot pg clk d body).1) as (? & ? & ?);
      [unfold Sql.round_ids; by rewrite Hr|]. split_and!; congruence.
  - destruct (IH (save_hole pg clk d body).1) as (? & ? & ?);
      [unfold Sql.round_ids; by rewrite Hr'|]. split_and!; congruence.
Qed.

(** X25. The course search assigns none of the variables of the script.
    Without a position it only asks to wait; with one it sends a single
    request, to overpass-api.de, whose body is the query for that
    position.  Nothing it sends reaches a handler of this server, so the
    database stays as it is. *)
Theorem find_nearby_courses_spec answer (st : Client.state) clk d :
  let out := (Client.findNearbyCourses env answer st).2 in
  (Client.findNearbyCourses env answer st).1 = st ∧
  (Client.currentPosition st = None →
   out = [Client.alert Client.waiting_for_gps_location]) ∧
  (∀ p, Client.currentPosition st = Some p →
        Client.posts Client.overpass_url out =
          [PyStr (Client.overpass_query env (Client.coords_latitude p)
                    (Client.coords_longitude p))]) ∧
  (∀ path body, Client.fetch path body ∈ out → path = Client.overpass_url) ∧
  deliver pg ((λ e, (clk, e)) <$> out) d = d.
Proof.
  cbn zeta. unfold Client.findNearbyCourses.
  destruct (Client.currentPosition st) as [p|]; cbn [fst snd].
  - split_and!; [done|done| |
      |cbn [fmap list_fmap deliver]; by rewrite route_overpass].
    + by intros p' [= <-].
    + by intros path body
        [[= -> ->]|[[=]|[]%elem_of_nil]%elem_of_cons]%elem_of_cons.
  - split_and!; [done|done|done| |done].
    by intros path body [=]%list_elem_of_singleton.
Qed.

(** X23. A round played from its first event to a confirmed end against
    a server that does not hold its identifier leaves no shot and no hole
    of it in the database, whatever was recorded: the requests for shots
    and holes arrive before the round is stored and are all refused, and
    the summary that stores the round comes last. *)
Theorem unsaved_round_stores_nothing evs iso now st0 out d :
  Forall (λ ev, ∀ iso now, ev ≠ Client.click_end true iso now) evs →
  out.*2 = (Client.play env (evs ++ [Client.click_end true iso now]) st0).2 →
  (∀ id, int8in pg (PyInt (Client.roundId st0)) = Some id →
         id ∉ Sql.round_ids d) →
  shots (deliver pg out d) = shots d ∧
  holes (deliver pg out d) = holes d ∧
  ∃ clk body,
    Client.posts "/api/round" out.*2 = [body] ∧
    rounds (deliver pg out d) = rounds (save_round pg clk d body).1.
Proof.
  intros Hevs Hout Hnew.
  assert (∀ evs' st,
    Client.play env (evs' ++ [Client.click_end true iso now]) st =
      ((Client.play env [Client.click_end true iso now]
          (Client.play env evs' st).1).1,
       (Client.play env evs' st).2 ++
       (Client.play env [Client.click_end true iso now]
          (Client.play env evs' st).1).2)) as Hsplit.
  { induction evs' as [|ev evs' IH]; intros st.
    - simpl. by destruct (Client.saveCourseName env st).
    - rewrite <-app_comm_cons, !play_cons, IH. cbn [fst snd].
      by rewrite app_assoc. }
  rewrite Hsplit in Hout. cbn [snd] in Hout.
  destruct (play_of_round env evs st0 Hevs) as (Hrid & Hnone & Hin).
  set (st := (Client.play env evs st0).1) in *.
  set (out1 := (Client.play env evs st0).2) in *.
  simpl in Hout.
  apply fmap_app_inv in Hout as (o1 & o2 & Ho1 & Ho2 & ->).
  destruct o2 as [|[clk e1] [|[clk2 e2] [|? ?]]]; try done.
  simpl in Ho2. injection Ho2 as He1 He2. subst e1 e2.
  assert (rounds (deliver pg o1 d) = rounds d ∧
          shots (deliver pg o1 d) = shots d ∧
          holes (deliver pg o1 d) = holes d) as (Hr1 & Hs1 & Hh1).
  { apply (deliver_in_round (Client.roundId st0)); [|done].
    rewrite Ho1 in Hin. apply Forall_fmap in Hin. exact Hin. }
  assert (∀ o d0, deliver pg (o1 ++ o) d0 = deliver pg o (deliver pg o1 d0))
    as Happ.
  { clear. induction o1 as [|[clk [msg|path body]] o1 IH]; intros o d0;
      simpl; [done|apply IH|].
    destruct (route path body); apply IH. }
  rewrite Happ. simpl.
  set (body := Client.round_body env (Client.saveCourseName env st) iso).
  assert (shots (save_round pg clk (deliver pg o1 d) body).1 =
            shots (deliver pg o1 d) ∧
          holes (save_round pg clk (deliver pg o1 d) body).1 =
            holes (deliver pg o1 d)) as [Hs2 Hh2].
  { rewrite save_round_unfold.
    destruct (round_request pg clk body) as [p|]; [|done]. cbn [fst].
    by destruct (upsert_round_other (pg_now clk) p (deliver pg o1 d))
      as (-> & -> & _). }
  split_and!.
  - by rewrite Hs2.
  - by rewrite Hh2.
  - exists clk, body. split.
    + rewrite fmap_app, posts_app, <-Ho1, Hnone. done.
    + rewrite !save_round_unfold.
      destruct (round_request pg clk body) as [p|]; cbn [fst]; [|done].
      rewrite !upsert_round_unfold.
      destruct (rp_round_id p), (rp_date p); try done.
      unfold Sql.round_ids. rewrite Hr1. by case_decide.
Qed.

End Session.

(** ** The script on a sample round *)

(** Before the first position the course search only asks to wait; with a
    position it sends the query for that position to the search server
    and reports the number of distinct names that came back. *)
Example find_nearby_courses :
  Client.step Client.js_sample Client.loaded
    (Client.click_find_courses Client.no_answer) =
    (Client.loaded, [Client.alert Client.waiting_for_gps_location]) ∧
  (Client.play Client.js_sample (take 2 Client.one_hole) Client.loaded).2 =
    [Client.fetch Client.overpass_url
       (PyStr (Client.overpass_query Client.js_sample
                 (Client.coords_latitude Client.tee)
                 (Client.coords_longitude Client.tee)));
     Client.alert (Client.found_courses 1)] ∧
  String.length
    (Client.overpass_query Client.js_sample
       (Client.coords_latitude Client.tee)
       (Client.coords_longitude Client.tee)) = 438.
Proof. vm_compute. by split_and!. Qed.

(** On the page just loaded no club is chosen: nothing is recorded. *)
Lemma script_guards_witness :
  (Client.recordShot Client.js_sample "2024-05-01T09:00:00.000Z"
     Client.loaded).1 = Client.loaded.
Proof.
  destruct (script_guards Client.js_sample Client.loaded
              "2024-05-01T09:00:00.000Z" 0) as (Hrec & _ & _).
  destruct Hrec as [Hst _]; [by left|]. exact Hst.
Defined.

(** The search of the sample round sends its query and changes nothing on
    the server. *)
Lemma find_nearby_courses_spec_witness :
  Client.posts Client.overpass_url
    (Client.findNearbyCourses Client.js_sample Client.no_answer
       (Client.play Client.js_sample [Client.gps Client.tee]
          Client.loaded).1).2 =
  [PyStr (Client.overpass_query Client.js_sample
            (Client.coords_latitude Client.tee)
            (Client.coords_longitude Client.tee))].
Proof.
  destruct (find_nearby_courses_spec Client.js_sample pg_plain
              Client.no_answer
              (Client.play Client.js_sample [Client.gps Client.tee]
                 Client.loaded).1 clk0 empty_db)
    as (_ & _ & Hpos & _).
  apply Hpos. reflexivity.
Defined.

(** The request for the first shot of the sample hole. *)
Lemma posted_bodies_are_complete_witness :
  ∃ body a,
    Client.fetch "/api/shot" body ∈
      (Client.step Client.js_sample
         (Client.play Client.js_sample
            [Client.gps Client.tee; Client.set_club "Driver"]
            Client.loaded).1
         (Client.click_record "2024-05-01T09:00:00.000Z")).2 ∧
    shot_tuple clk0 body = Ok a ∧ sa_round_id a = PyInt 1001.
Proof.
  eexists.
  edestruct (posted_bodies_are_complete Client.js_sample
               (Client.play Client.js_sample
                  [Client.gps Client.tee; Client.set_club "Driver"]
                  Client.loaded).1
               (Client.click_record "2024-05-01T09:00:00.000Z") clk0)
    as [(Hpath & _)|[(_ & a & iso & Ha & Hrid & _)|[(Hpath & _)|(Hpath & _)]]].
  - vm_compute. left.
  - discriminate Hpath.
  - exists a. split; [vm_compute; left|]. split; [exact Ha|exact Hrid].
  - discriminate Hpath.
  - discriminate Hpath.
Defined.

(** After the sample hole the page holds two shots and is on hole 2. *)
Lemma round_in_progress_witness :
  length (Client.shots
            (Client.play Client.js_sample Client.one_hole Client.loaded).1) =
    2 ∧
  Client.currentHole
    (Client.play Client.js_sample Client.one_hole Client.loaded).1 = 2%Z.
Proof.
  destruct (round_in_progress Client.js_sample Client.one_hole Client.loaded)
    as (Hshots & Hholes & _).
  - unfold Client.one_hole. repeat (apply Forall_cons; split; [done|]).
    apply Forall_nil_2.
  - split; [rewrite Hshots|rewrite Hholes]; vm_compute; reflexivity.
Defined.

(** The course of the sample round joins the list of recent courses. *)
Lemma saved_courses_recent_witness :
  NoDup (Client.savedCourses
           (Client.saveCourseName Client.js_sample
              (Client.play Client.js_sample Client.one_hole
                 Client.loaded).1)).
Proof.
  destruct (saved_courses_recent Client.js_sample
              (Client.play Client.js_sample Client.one_hole Client.loaded).1)
    as (Hnd & _).
  apply Hnd. vm_compute. repeat constructor. by intros ?%elem_of_nil.
Defined.

(** The sample round against the empty database: no shot and no hole is
    stored. *)
Lemma unsaved_round_stores_nothing_witness :
  shots (deliver pg_plain Client.one_round_out empty_db) = [] ∧
  holes (deliver pg_plain Client.one_round_out empty_db) = [].
Proof.
  destruct (unsaved_round_stores_nothing Client.js_sample pg_plain
              Client.one_hole "2024-05-01T09:10:00.000Z" 2002 Client.loaded
              Client.one_round_out empty_db) as (Hs & Hh & _).
  - unfold Client.one_hole. repeat (apply Forall_cons; split; [done|]).
    apply Forall_nil_2.
  - vm_compute. reflexivity.
  - intros id _. apply not_elem_of_nil.
  - by split.
Defined.
